(** * CacheableImage (src/image.js): a shallow embedding and its properties

    The component keeps one remote image on disk.  From the image's URI it
    derives a directory (the host) and a file name (SHA-1 of the path, plus
    the chosen query parameters, plus the extension), asks the native file
    system whether that file exists, and downloads it otherwise.

    Layout of the development:
    - [Str]      : string helpers (JavaScript strings whose code units are
                   below 256 are represented by [string]);
    - [SHA1]     : the digest computed by [crypto-js/sha1] and its
                   hexadecimal rendering;
    - [UrlParse] : the part of [url-parse] that [_processSource] relies on;
    - the component: state, handler monad, methods and promise callbacks;
    - the native side: file system, pending calls, event delivery;
    - the properties. *)

From Stdlib Require Import ZArith Ascii String Lia.
From stdpp Require Import gmap strings list.

Local Open Scope Z_scope.

(** ** Strings *)

Module Str.

Fixpoint of_list (l : list ascii) : string :=
  match l with
  | [] => EmptyString
  | c :: l' => String c (of_list l')
  end.

Definition code (c : ascii) : Z := Z.of_nat (nat_of_ascii c).

Fixpoint mem (c : ascii) (s : string) : bool :=
  match s with
  | EmptyString => false
  | String d s' => if Ascii.eqb c d then true else mem c s'
  end.

(** [s.toLowerCase()] on the ASCII letters. *)
Definition lower_char (c : ascii) : ascii :=
  let n := nat_of_ascii c in
  if ((65 <=? n) && (n <=? 90))%nat then ascii_of_nat (n + 32) else c.

Fixpoint toLowerCase (s : string) : string :=
  match s with
  | EmptyString => EmptyString
  | String c s' => String (lower_char c) (toLowerCase s')
  end.

(** [s.indexOf(c)] split: the text before the first [c] and the text from
    that [c] on (inclusive); [None] when [c] does not occur. *)
Fixpoint break_at (c : ascii) (s : string) : option (string * string) :=
  match s with
  | EmptyString => None
  | String d s' =>
      if Ascii.eqb c d then Some (EmptyString, s)
      else match break_at c s' with
           | Some (pre, post) => Some (String d pre, post)
           | None => None
           end
  end.

Definition tail (s : string) : string :=
  match s with
  | EmptyString => EmptyString
  | String _ s' => s'
  end.

Fixpoint all_chars (p : ascii -> bool) (s : string) : bool :=
  match s with
  | EmptyString => true
  | String c s' => p c && all_chars p s'
  end.

(** The longest prefix whose characters satisfy [p], and what follows. *)
Fixpoint span (p : ascii -> bool) (s : string) : string * string :=
  match s with
  | EmptyString => (EmptyString, EmptyString)
  | String c s' =>
      if p c then let '(a, b) := span p s' in (String c a, b)
      else (EmptyString, s)
  end.

End Str.

(** ** SHA-1, as computed by [crypto-js/sha1]

    [SHA1(message)] with a string argument first encodes the string as UTF-8
    ([CryptoJS.enc.Utf8.parse]), hashes the bytes and returns a word array of
    five 32-bit words; concatenating it with a string calls its [toString],
    which renders the twenty bytes as forty lowercase hexadecimal digits. *)

Module SHA1.

Definition two32 : Z := 4294967296.

Definition add32 (x y : Z) : Z := (x + y) mod two32.

Definition rotl (n x : Z) : Z :=
  Z.lor (Z.shiftl x n mod two32) (Z.shiftr x (32 - n)).

(** UTF-8 encoding of a code unit below 256: one byte below 128, two
    bytes from 128 on.  Code units from 256 on, and with them the lone
    surrogates on which the conversion of [crypto-js] throws, are outside
    the strings of this development. *)
Definition utf8_char (c : ascii) : list Z :=
  let n := Str.code c in
  if n <? 128 then [n]
  else [Z.lor 192 (Z.shiftr n 6); Z.lor 128 (Z.land n 63)].

Fixpoint utf8 (s : string) : list Z :=
  match s with
  | EmptyString => []
  | String c s' => utf8_char c ++ utf8 s'
  end.

(** Big-endian bytes of [x], [n] of them. *)
Fixpoint be_bytes (n : nat) (x : Z) : list Z :=
  match n with
  | O => []
  | S n' => be_bytes n' (Z.shiftr x 8) ++ [Z.land x 255]
  end.

Definition pad (msg : list Z) : list Z :=
  let len := Z.of_nat (length msg) in
  let zeros := Z.to_nat ((55 - len) mod 64) in
  msg ++ [128] ++ repeat 0 zeros ++ be_bytes 8 (8 * len).

Fixpoint words (n : nat) (bytes : list Z) : list Z :=
  match n with
  | O => []
  | S n' =>
      match bytes with
      | b0 :: b1 :: b2 :: b3 :: rest =>
          (Z.shiftl b0 24 + Z.shiftl b1 16 + Z.shiftl b2 8 + b3)
            :: words n' rest
      | _ => []
      end
  end.

(** The message schedule, most recent word first. *)
Fixpoint schedule (n : nat) (w : list Z) : list Z :=
  match n with
  | O => w
  | S n' =>
      let x := Z.lxor (Z.lxor (nth 2 w 0) (nth 7 w 0))
                      (Z.lxor (nth 13 w 0) (nth 15 w 0)) in
      schedule n' (rotl 1 x :: w)
  end.

Definition f (t b c d : Z) : Z :=
  if t <? 20 then Z.lor (Z.land b c) (Z.land (Z.lxor b (two32 - 1)) d)
  else if t <? 40 then Z.lxor (Z.lxor b c) d
  else if t <? 60 then Z.lor (Z.lor (Z.land b c) (Z.land b d)) (Z.land c d)
  else Z.lxor (Z.lxor b c) d.

Definition k (t : Z) : Z :=
  if t <? 20 then 1518500249
  else if t <? 40 then 1859775393
  else if t <? 60 then 2400959708
  else 3395469782.

Record regs := Regs { ra : Z; rb : Z; rc : Z; rd : Z; re : Z }.

Definition round (r : regs) (tw : Z * Z) : regs :=
  let '(t, w) := tw in
  let temp :=
    add32 (add32 (add32 (add32 (rotl 5 (ra r)) (f t (rb r) (rc r) (rd r)))
                        (re r)) (k t)) w in
  Regs temp (ra r) (rotl 30 (rb r)) (rc r) (rd r).

Definition Zseq (n : nat) : list Z := map Z.of_nat (seq 0 n).

Definition process_block (h : regs) (block : list Z) : regs :=
  let w := rev (schedule 64 (rev (words 16 block))) in
  let r := fold_left round (combine (Zseq 80) w) h in
  Regs (add32 (ra h) (ra r)) (add32 (rb h) (rb r)) (add32 (rc h) (rc r))
       (add32 (rd h) (rd r)) (add32 (re h) (re r)).

Fixpoint process (n : nat) (h : regs) (bytes : list Z) : regs :=
  match n with
  | O => h
  | S n' => process n' (process_block h (firstn 64 bytes)) (skipn 64 bytes)
  end.

Definition init : regs :=
  Regs 1732584193 4023233417 2562383102 271733878 3285377520.

(** The digest as five 32-bit words. *)
Definition digest (s : string) : list Z :=
  let bytes := pad (utf8 s) in
  let r := process (Nat.div (length bytes) 64) init bytes in
  [ra r; rb r; rc r; rd r; re r].

Definition hex_digit (n : Z) : ascii :=
  if n <? 10 then ascii_of_nat (Z.to_nat (48 + n))
  else ascii_of_nat (Z.to_nat (87 + n)).

Definition hex_byte (b : Z) : list ascii :=
  [hex_digit (Z.shiftr b 4); hex_digit (Z.land b 15)].

Definition hex_word (w : Z) : list ascii :=
  concat (map hex_byte (be_bytes 4 w)).

(** [SHA1(s) + ''] *)
Definition SHA1 (s : string) : string :=
  Str.of_list (concat (map hex_word (digest s))).

End SHA1.

(** ** The locator, as parsed by [url-parse]

    [_processSource] calls [new URL(source.uri, null, true)] and reads the
    [host], [pathname] and [query] of the result.  The third argument asks
    for the query string to be parsed, so [query] is an object whose own
    properties are the parameters, not a string. *)

Module UrlParse.

Record Url := mkUrl {
  protocol : string;
  host : string;
  pathname : string;
  query : gmap string string;
  hash : string
}.

Definition is_alpha (c : ascii) : bool :=
  let n := nat_of_ascii c in
  (((65 <=? n) && (n <=? 90)) || ((97 <=? n) && (n <=? 122)))%nat.

Definition is_digit (c : ascii) : bool :=
  let n := nat_of_ascii c in ((48 <=? n) && (n <=? 57))%nat.

Definition is_scheme_char (c : ascii) : bool :=
  is_alpha c || is_digit c
  || Ascii.eqb c "."%char || Ascii.eqb c "+"%char || Ascii.eqb c "-"%char.

(** The protocol expression of [url-parse]: an optional scheme (a letter,
    then letters, digits, [.], [+] or [-], then a colon; lowercased), an
    optional pair of slashes, and the rest. *)
Definition scheme_of (address : string) : string * string :=
  match Str.break_at ":"%char address with
  | Some (String c pre, post) =>
      if is_alpha c && Str.all_chars is_scheme_char pre
      then (Str.toLowerCase (String c pre) +:+ ":", Str.tail post)
      else (EmptyString, address)
  | _ => (EmptyString, address)
  end.

Definition slashes_of (rest : string) : bool * string :=
  match rest with
  | String c1 (String c2 rest') =>
      if Ascii.eqb c1 "/"%char && Ascii.eqb c2 "/"%char then (true, rest')
      else (false, rest)
  | _ => (false, rest)
  end.

Definition extractProtocol (address : string) : string * bool * string :=
  let '(proto, rest) := scheme_of address in
  let '(slashes, rest') := slashes_of rest in
  (proto, slashes, rest').

(** Cut [address] at the first [c]: what stays in front, and the part from
    [c] on (empty when [c] does not occur). *)
Definition cut_back (c : ascii) (address : string) : string * string :=
  match Str.break_at c address with
  | Some (pre, post) => (pre, post)
  | None => (address, EmptyString)
  end.

(** A colon followed by digits up to the end: the host name and the port
    digits. *)
Fixpoint split_port (s : string) : string * string :=
  match s with
  | EmptyString => (EmptyString, EmptyString)
  | String c s' =>
      if Ascii.eqb c ":"%char && Str.all_chars is_digit s'
         && negb (String.eqb s' EmptyString)
      then (EmptyString, s')
      else let '(h, p) := split_port s' in (String c h, p)
  end.

Fixpoint number (acc : Z) (digits : string) : Z :=
  match digits with
  | EmptyString => acc
  | String c s' => number (10 * acc + (Str.code c - 48)) s'
  end.

(** [required(port, protocol)] of the [requires-port] package. *)
Definition required (port protocol : string) : bool :=
  let p := number 0 port in
  if p =? 0 then false
  else if String.eqb protocol "http:" || String.eqb protocol "ws:"
       then negb (p =? 80)
  else if String.eqb protocol "https:" || String.eqb protocol "wss:"
       then negb (p =? 443)
  else if String.eqb protocol "ftp:" then negb (p =? 21)
  else if String.eqb protocol "gopher:" then negb (p =? 70)
  else if String.eqb protocol "file:" then false
  else true.

Definition is_key_char (c : ascii) : bool :=
  negb (Ascii.eqb c "="%char || Ascii.eqb c "?"%char || Ascii.eqb c "&"%char).

Definition is_value_char (c : ascii) : bool := negb (Ascii.eqb c "&"%char).

(** [querystringify.parse]: the loop over the matches of "a run of
    characters other than [=], [?], [&]; an optional [=]; a run of
    characters other than [&]", each match assigning [result[key] = value],
    so that of a repeated parameter the last value stays, as in the
    [querystringify] of [url-parse] 1.1 (later versions keep the first).
    Percent-decoding is not modelled: the parameters are taken to contain
    no escapes. *)
Fixpoint qs_parse (fuel : nat) (q : string) (result : gmap string string)
  : gmap string string :=
  match fuel with
  | O => result
  | S fuel' =>
      let '(_, q1) := Str.span (fun c => negb (is_key_char c)) q in
      match q1 with
      | EmptyString => result
      | _ =>
          let '(key, q2) := Str.span is_key_char q1 in
          let q3 := match q2 with
                    | String "=" q3 => q3
                    | _ => q2
                    end in
          let '(value, q4) := Str.span is_value_char q3 in
          qs_parse fuel' q4 (<[key := value]> result)
      end
  end.

(** [new URL(address, null, true)] for an absolute address
    [scheme://[auth@]host[:port][/path][?query][#fragment]], following
    [url-parse] 1.1.  Here an address without a path has the empty
    [pathname], and an address that starts with two slashes has the host
    that follows them; later versions of the library give the path [/] and
    the empty host. *)
Definition URL (address : string) : Url :=
  let '(proto, slashes, address) := extractProtocol address in
  let '(address, hash) := cut_back "#"%char address in
  let '(address, query) := cut_back "?"%char address in
  let '(address, pathname) :=
    if slashes then cut_back "/"%char address
    else (EmptyString, address) in
  let address :=
    match Str.break_at "@"%char address with
    | Some (_, post) => Str.tail post
    | None => address
    end in
  let host := Str.toLowerCase address in
  let '(hostname, port) := split_port host in
  {| protocol := proto;
     host := if required port proto then host else hostname;
     pathname := pathname;
     query := qs_parse (S (String.length query)) query ∅;
     hash := hash |}.

End UrlParse.

Import UrlParse.

(** ** Key derivation: the pure part of [_processSource] *)

(** The [useQueryParamsInCacheKey] prop: a boolean or an array of names. *)
Inductive QueryPolicy :=
| PolicyBool (b : bool)
| PolicyArray (names : list string).

(** [String(o)] for a plain object [o]. *)
Definition ToString_object (o : gmap string string) : string :=
  "[object Object]".

(** The local [cacheable]: the path, to which the [forEach] over an array
    policy appends the value of each listed parameter that the query object
    owns, and to which a truthy non-array policy appends [url.query].  The
    query object is assumed not to shadow [hasOwnProperty] and [toString]. *)
Definition append_param (q : gmap string string) (cacheable k : string)
  : string :=
  match q !! k with
  | Some v => cacheable +:+ v
  | None => cacheable
  end.

Definition cacheable_of (policy : QueryPolicy) (url : Url) : string :=
  match policy with
  | PolicyArray names =>
      fold_left (append_param (query url)) names (pathname url)
  | PolicyBool true => pathname url +:+ ToString_object (query url)
  | PolicyBool false => pathname url
  end.

(** [pathname.replace(re, '$1')] where [re] is: any characters, a dot, then a
    captured run of any characters.  "Any character" excludes the line
    terminators, the match is the leftmost one, and both runs are greedy: at
    a given start the match covers the rest of the line as soon as that rest
    contains a dot, and the capture is what follows the last dot of the
    line. *)
Definition is_line_terminator (c : ascii) : bool :=
  Ascii.eqb c "010"%char || Ascii.eqb c "013"%char.

Fixpoint after_last_dot (s : string) : option string :=
  match s with
  | EmptyString => None
  | String c s' =>
      match after_last_dot s' with
      | Some t => Some t
      | None => if Ascii.eqb c "."%char then Some s' else None
      end
  end.

Definition match_here (s : string) : option (string * string) :=
  let '(line, rest) := Str.span (fun c => negb (is_line_terminator c)) s in
  match after_last_dot line with
  | Some capture => Some (capture, rest)
  | None => None
  end.

Fixpoint replace_extension (s : string) : string :=
  match match_here s with
  | Some (capture, rest) => capture +:+ rest
  | None =>
      match s with
      | EmptyString => EmptyString
      | String c s' => String c (replace_extension s')
      end
  end.

(** The local [type] and the extension that ends up in the key. *)
Definition type_of (url : Url) : string := replace_extension (pathname url).

Definition extension_of (url : Url) : string :=
  if (String.length (type_of url) <? String.length (pathname url))%nat
  then type_of url else EmptyString.

(** The local [cacheKey]. *)
Definition cacheKey_of (policy : QueryPolicy) (url : Url) : string :=
  SHA1.SHA1 (cacheable_of policy url) +:+ "." +:+ extension_of url.

(** ** The component *)

(** A [source] prop: [null], a bundled asset (a number, as [require] yields
    it) or an object, possibly with an own [uri].  [ref] stands for the
    identity of the object, which is what [!=] compares. *)
Inductive Source :=
| SrcNull
| SrcNumber (n : Z)
| SrcObject (ref : nat) (uri : option string).

Record Props := mkProps {
  source : Source;
  useQueryParamsInCacheKey : QueryPolicy
}.

Record State := mkState {
  isRemote : bool;
  cachedImagePath : option string;
  downloading : bool;
  cacheable : bool;
  jobId : option Z;
  networkAvailable : bool
}.

Record Component := mkComponent {
  props : Props;
  state : State
}.

(** The state objects handed to [setState] in the source. *)
Definition set_isRemote (b : bool) (s : State) : State :=
  mkState b (cachedImagePath s) (downloading s) (cacheable s) (jobId s)
          (networkAvailable s).

Definition set_download (d : bool) (j : option Z) (s : State) : State :=
  mkState (isRemote s) (cachedImagePath s) d (cacheable s) j
          (networkAvailable s).

Definition set_cache (c : bool) (p : option string) (s : State) : State :=
  mkState (isRemote s) p (downloading s) c (jobId s) (networkAvailable s).

Definition set_networkAvailable (b : bool) (s : State) : State :=
  mkState (isRemote s) (cachedImagePath s) (downloading s) (cacheable s)
          (jobId s) b.

(** Truthiness of the two nullable fields. *)
Definition truthy_path (p : option string) : bool :=
  match p with
  | Some s => negb (String.eqb s EmptyString)
  | None => false
  end.

Definition truthy_job (j : option Z) : bool :=
  match j with
  | Some n => negb (n =? 0)
  | None => false
  end.

(** Calls into the native modules. *)
Inductive Call :=
| RNFS_stat (filePath : string)
| RNFS_mkdir (dirPath : string) (NSURLIsExcludedFromBackupKey : bool)
| RNFS_downloadFile (fromUrl toFile : string) (background : bool)
| RNFS_exists (filePath : string)
| RNFS_unlink (filePath : string)
| RNFS_stopDownload (job : Z)
| NetInfo_addEventListener
| NetInfo_removeEventListener
| NetInfo_fetch.

(** The callbacks chained on the promise a call returns, with the variables
    their closures capture. *)
Inductive Callbacks :=
| StatChain (imageUri dirPath filePath : string)
| MkdirChain (imageUri dirPath filePath : string)
| DownloadChain (filePath : string)
| ExistsChain (filePath : string)
| UnlinkChain
| FetchChain.

#[global] Instance Call_eq_dec : EqDecision Call.
Proof. solve_decision. Defined.

#[global] Instance Callbacks_eq_dec : EqDecision Callbacks.
Proof. solve_decision. Defined.

Inductive Error :=
| TypeError (message : string)
| Rejected.

Inductive Completion (A : Type) :=
| Normal (a : A)
| Throw (e : Error).

Arguments Normal {A} a.
Arguments Throw {A} e.

(** A call and, when a promise chain was attached, its callbacks. *)
Definition Issued : Type := Call * option Callbacks.

(** Method bodies and callbacks: they read and write the component, issue
    native calls and may throw. What was done before a throw stays done. *)
Definition M (A : Type) : Type :=
  Component -> Completion A * Component * list Issued.

#[global] Instance M_ret : MRet M := fun A a c => (Normal a, c, []).

#[global] Instance M_bind : MBind M := fun A B k m c =>
  match m c with
  | (Normal a, c1, out1) =>
      let '(r, c2, out2) := k a c1 in (r, c2, out1 ++ out2)
  | (Throw e, c1, out1) => (Throw e, c1, out1)
  end.

Definition throw {A} (e : Error) : M A := fun c => (Throw e, c, []).

Definition try_catch (body : M unit) (handler : Error -> M unit) : M unit :=
  fun c =>
    match body c with
    | (Normal a, c1, out1) => (Normal a, c1, out1)
    | (Throw e, c1, out1) =>
        let '(r, c2, out2) := handler e c1 in (r, c2, out1 ++ out2)
    end.

Definition this_state : M State := fun c => (Normal (state c), c, []).

Definition this_props : M Props := fun c => (Normal (props c), c, []).

(** [this.setState(partial)].  The state is read only in callbacks of
    promises, which run after any update that was batched during a lifecycle
    method has been applied; the update is therefore modelled as taking
    effect at once.  It is also applied to an instance that was unmounted,
    whose state React leaves alone: after [componentWillUnmount] the state
    of the model is no longer that of the component. *)
Definition setState (update : State -> State) : M unit :=
  fun c => (Normal tt, mkComponent (props c) (update (state c)), []).

(** A call whose promise gets callbacks, and a call whose result is
    dropped. *)
Definition invoke (call : Call) (chain : Callbacks) : M unit :=
  fun c => (Normal tt, c, [(call, Some chain)]).

Definition perform (call : Call) : M unit :=
  fun c => (Normal tt, c, [(call, None)]).

(** [promise.then(onFulfilled).catch(onRejected)], once the promise has
    settled: a throw in [onFulfilled] reaches [onRejected]. *)
Definition then_catch {R} (onFulfilled : R -> M unit)
    (onRejected : Error -> M unit) (settled : R + Error) : M unit :=
  match settled with
  | inl r => try_catch (onFulfilled r) onRejected
  | inr e => onRejected e
  end.

(** [promise.then(onFulfilled)]: a rejection is left unhandled. *)
Definition then_only {R} (onFulfilled : R -> M unit) (settled : R + Error)
  : M unit :=
  match settled with
  | inl r => onFulfilled r
  | inr e => throw e
  end.

(** [promise.catch(onRejected)]. *)
Definition catch_only {R} (onRejected : Error -> M unit) (settled : R + Error)
  : M unit :=
  match settled with
  | inl _ => mret tt
  | inr e => onRejected e
  end.

(** Progress of a download: byte counts, exact integers.  The quotient
    [contentLength / bytesWritten] is a number, an infinity or NaN; for byte
    counts that doubles represent exactly it compares equal to 1 precisely
    when it is a number whose numerator and denominator coincide. *)
Inductive Quotient :=
| Ratio (numerator denominator : Z)
| Infinite
| NaN.

Definition divide (a b : Z) : Quotient :=
  if b =? 0 then (if a =? 0 then NaN else Infinite) else Ratio a b.

Definition equals_one (q : Quotient) : bool :=
  match q with
  | Ratio n d => n =? d
  | Infinite | NaN => false
  end.

Record ProgressInfo := mkProgress {
  contentLength : Z;
  bytesWritten : Z
}.

Section CacheableImage.

(** The documents directory reported by [react-native-fs]. *)
Variable DocumentDirectoryPath : string.

Definition constructor (p : Props) : Component :=
  mkComponent p (mkState false None false true None false).

Definition imageDownloadBegin (info_jobId : Z) : M unit :=
  setState (set_download true (Some info_jobId)).

Definition imageDownloadProgress (info : ProgressInfo) : M unit :=
  if equals_one (divide (contentLength info) (bytesWritten info))
  then setState (set_download false None)
  else mret tt.

Definition checkImageCache (imageUri cachePath cacheKey : string) : M unit :=
  let dirPath := DocumentDirectoryPath +:+ "/" +:+ cachePath in
  let filePath := dirPath +:+ "/" +:+ cacheKey in
  invoke (RNFS_stat filePath) (StatChain imageUri dirPath filePath).

Definition _deleteFilePath (filePath : string) : M unit :=
  invoke (RNFS_exists filePath) (ExistsChain filePath).

(** [this.name(path)]: of the members of the instance, only
    [_deleteFilePath] is a method taking a path; calling a name the
    instance does not have throws. *)
Definition this_call (name : string) (path : string) : M unit :=
  if String.eqb name "_deleteFilePath" then _deleteFilePath path
  else throw (TypeError ("this." +:+ name +:+ " is not a function")).

(** Callbacks of [RNFS.stat(filePath)]. *)
Definition stat_then (filePath : string) (res_isFile : bool) : M unit :=
  if res_isFile then setState (set_cache true (Some filePath))
  else mret tt.

Definition stat_catch (imageUri dirPath filePath : string) (err : Error)
  : M unit :=
  s ← this_state;
  if negb (networkAvailable s) then setState (set_cache false None)
  else invoke (RNFS_mkdir dirPath true)
              (MkdirChain imageUri dirPath filePath).

(** Callbacks of [RNFS.mkdir(dirPath, ...)]. *)
Definition mkdir_then (imageUri filePath : string) (_ : unit) : M unit :=
  s ← this_state;
  (if cacheable s && truthy_path (cachedImagePath s)
   then this_call "deleteFilePath" (default EmptyString (cachedImagePath s))
   else mret tt) ;;
  invoke (RNFS_downloadFile imageUri filePath true) (DownloadChain filePath).

Definition mkdir_catch (filePath : string) (err : Error) : M unit :=
  _deleteFilePath filePath ;;
  setState (set_cache false None).

(** Callbacks of [RNFS.downloadFile(downloadOptions).promise]. *)
Definition download_then (filePath : string) (_ : unit) : M unit :=
  setState (set_cache true (Some filePath)).

Definition download_catch (filePath : string) (err : Error) : M unit :=
  _deleteFilePath filePath ;;
  setState (set_cache false None).

(** Callbacks of [RNFS.exists(filePath)] and [RNFS.unlink(filePath)]. *)
Definition exists_then (filePath : string) (res : bool) : M unit :=
  if res then invoke (RNFS_unlink filePath) UnlinkChain else mret tt.

Definition unlink_catch (err : Error) : M unit := mret tt.

(** The four conjuncts at the head of [_processSource]:
    [source !== null], [source != ''], [typeof source === "object"] and
    [source.hasOwnProperty('uri')]. *)
Definition not_null (src : Source) : bool :=
  match src with
  | SrcNull => false
  | _ => true
  end.

Definition not_empty_string (src : Source) : bool :=
  match src with
  | SrcNumber n => negb (n =? 0)
  | _ => true
  end.

Definition typeof_object (src : Source) : bool :=
  match src with
  | SrcNumber _ => false
  | _ => true
  end.

Definition hasOwnProperty_uri (src : Source) : bool :=
  match src with
  | SrcObject _ (Some _) => true
  | _ => false
  end.

(** [source.uri] *)
Definition uri_of (src : Source) : string :=
  match src with
  | SrcObject _ (Some uri) => uri
  | _ => EmptyString
  end.

Definition _processSource (src : Source) : M unit :=
  if not_null src && not_empty_string src && typeof_object src
     && hasOwnProperty_uri src
  then
    let url := URL (uri_of src) in
    p ← this_props;
    let cacheKey := cacheKey_of (useQueryParamsInCacheKey p) url in
    checkImageCache (uri_of src) (host url) cacheKey ;;
    setState (set_isRemote true)
  else setState (set_isRemote false).

(** [a != b] on sources. *)
Definition source_neq (a b : Source) : bool :=
  match a, b with
  | SrcNull, SrcNull => false
  | SrcNumber n, SrcNumber m => negb (n =? m)
  | SrcObject r _, SrcObject r' _ => negb (Nat.eqb r r')
  | _, _ => true
  end.

Definition componentWillReceiveProps (nextProps : Props) : M unit :=
  p ← this_props;
  if source_neq (source nextProps) (source p)
  then _processSource (source nextProps)
  else mret tt.

Definition fetch_then (isConnected : bool) : M unit :=
  setState (set_networkAvailable isConnected).

Definition _handleConnectivityChange (isConnected : bool) : M unit :=
  setState (set_networkAvailable isConnected).

Definition componentWillMount : M unit :=
  perform NetInfo_addEventListener ;;
  invoke NetInfo_fetch FetchChain ;;
  p ← this_props;
  _processSource (source p).

Definition componentWillUnmount : M unit :=
  perform NetInfo_removeEventListener ;;
  s ← this_state;
  if downloading s && truthy_job (jobId s)
  then perform (RNFS_stopDownload (default 0 (jobId s)))
  else mret tt.

End CacheableImage.

(** ** The native side

    The file system under the documents directory, the connectivity of the
    device, and the promises that have not settled yet.  A native call takes
    effect and runs its callbacks in one step, when its promise settles; the
    environment decides when, and whether directory creation, transfer and
    removal succeed. *)

Inductive Node := File | Directory.

Abbreviation Promise := (Call * Callbacks)%type.

Record World := mkWorld {
  component : Component;
  fs : gmap string Node;
  connected : bool;
  listening : bool;
  pending : list Promise;
  calls : list Call
}.

(** [RNFS.stat] rejects when nothing is at the path, and otherwise resolves
    to a result whose [isFile()] tells a file from a directory. *)
Definition native_stat (files : gmap string Node) (path : string)
  : bool + Error :=
  match files !! path with
  | Some File => inl true
  | Some Directory => inl false
  | None => inr Rejected
  end.

(** [RNFS.mkdir] creates the directory unless something is there already;
    the environment decides whether it fails. *)
Definition native_mkdir (ok : bool) (files : gmap string Node) (path : string)
  : gmap string Node * (unit + Error) :=
  if ok then
    (match files !! path with
     | Some _ => files
     | None => <[path := Directory]> files
     end, inl tt)
  else (files, inr Rejected).

(** A transfer that succeeds leaves the file at its destination; what a
    failed one leaves is what its progress has written (see [step]). *)
Definition native_download (ok : bool) (files : gmap string Node)
    (toFile : string) : gmap string Node * (unit + Error) :=
  if ok then (<[toFile := File]> files, inl tt) else (files, inr Rejected).

(** [RNFS.exists] resolves to whether a file or a directory is there. *)
Definition native_exists (files : gmap string Node) (path : string)
  : bool + Error :=
  inl (bool_decide (is_Some (files !! path))).

(** [RNFS.unlink] rejects when nothing is there or when the removal
    fails. *)
Definition native_unlink (ok : bool) (files : gmap string Node) (path : string)
  : gmap string Node * (unit + Error) :=
  if ok && bool_decide (is_Some (files !! path))
  then (delete path files, inl tt)
  else (files, inr Rejected).

(** The effect of a settling call on the file system and the callback that
    runs; [None] when the chain is not one the component attaches to that
    call. *)
Definition deliver (p : Promise) (ok : bool) (files : gmap string Node)
    (isConnected : bool) : option (gmap string Node * M unit) :=
  match p with
  | (RNFS_stat path, StatChain imageUri dirPath filePath) =>
      Some (files,
            then_catch (stat_then filePath)
                       (stat_catch imageUri dirPath filePath)
                       (native_stat files path))
  | (RNFS_mkdir path _, MkdirChain imageUri dirPath filePath) =>
      let '(files', settled) := native_mkdir ok files path in
      Some (files',
            then_catch (mkdir_then imageUri filePath) (mkdir_catch filePath)
                       settled)
  | (RNFS_downloadFile _ toFile _, DownloadChain filePath) =>
      let '(files', settled) := native_download ok files toFile in
      Some (files',
            then_catch (download_then filePath) (download_catch filePath)
                       settled)
  | (RNFS_exists path, ExistsChain filePath) =>
      Some (files, then_only (exists_then filePath) (native_exists files path))
  | (RNFS_unlink path, UnlinkChain) =>
      let '(files', settled) := native_unlink ok files path in
      Some (files', catch_only unlink_catch settled)
  | (NetInfo_fetch, FetchChain) =>
      Some (files, then_only fetch_then (inl isConnected))
  | _ => None
  end.

Definition promises (out : list Issued) : list Promise :=
  omap (fun i : Issued => pair (fst i) <$> snd i) out.

Definition listens (l : bool) (i : Issued) : bool :=
  match fst i with
  | NetInfo_addEventListener => true
  | NetInfo_removeEventListener => false
  | _ => l
  end.

(** Run a method or callback of the component in a world.  An exception
    that escapes is an unhandled rejection: nothing more happens. *)
Definition run_handler (h : M unit) (w : World) : World :=
  let '(_, c, out) := h (component w) in
  mkWorld c (fs w) (connected w) (fold_left listens out (listening w))
          (pending w ++ promises out) (calls w ++ map fst out).

Fixpoint take_out (p : Promise) (l : list Promise) : option (list Promise) :=
  match l with
  | [] => None
  | q :: l' =>
      if decide (p = q) then Some l' else cons q <$> take_out p l'
  end.

Definition download_target (p : Promise) : option string :=
  match p with
  | (RNFS_downloadFile _ toFile _, DownloadChain _) => Some toFile
  | _ => None
  end.

(** What the environment does: it settles a pending promise ([ok] says
    whether an operation that can fail succeeds), reports the start or the
    progress of a pending download (bytes written create the destination
    file), or changes the connectivity. *)
Inductive Event :=
| Settle (p : Promise) (ok : bool)
| Begin (p : Promise) (job : Z)
| Progress (p : Promise) (info : ProgressInfo)
| ConnectivityChange (isConnected : bool).

Definition step (e : Event) (w : World) : option World :=
  match e with
  | Settle p ok =>
      rest ← take_out p (pending w);
      '(files, h) ← deliver p ok (fs w) (connected w);
      Some (run_handler h
              (mkWorld (component w) files (connected w) (listening w) rest
                       (calls w)))
  | Begin p job =>
      _ ← take_out p (pending w);
      _ ← download_target p;
      Some (run_handler (imageDownloadBegin job) w)
  | Progress p info =>
      _ ← take_out p (pending w);
      toFile ← download_target p;
      let files :=
        if 0 <? bytesWritten info then <[toFile := File]> (fs w) else fs w in
      Some (run_handler (imageDownloadProgress info)
              (mkWorld (component w) files (connected w) (listening w)
                       (pending w) (calls w)))
  | ConnectivityChange isConnected =>
      let w' := mkWorld (component w) (fs w) isConnected (listening w)
                        (pending w) (calls w) in
      Some (if listening w
            then run_handler (_handleConnectivityChange isConnected) w'
            else w')
  end.

Fixpoint run (es : list Event) (w : World) : option World :=
  match es with
  | [] => Some w
  | e :: es' => w' ← step e w; run es' w'
  end.

Section Lifecycle.

Variable DocumentDirectoryPath : string.

Definition mount (p : Props) (files : gmap string Node) (isConnected : bool)
  : World :=
  run_handler (componentWillMount DocumentDirectoryPath)
              (mkWorld (constructor p) files isConnected false [] []).

(** React calls [componentWillReceiveProps] and then installs the new
    props. *)
Definition receiveProps (nextProps : Props) (w : World) : World :=
  let w' :=
    run_handler (componentWillReceiveProps DocumentDirectoryPath nextProps)
                w in
  mkWorld (mkComponent nextProps (state (component w'))) (fs w')
          (connected w') (listening w') (pending w') (calls w').

Definition unmount (w : World) : World := run_handler componentWillUnmount w.

(** What happens to a mounted component: the environment delivers an
    event, or React hands it new props or unmounts it. *)
Inductive Action :=
| Deliver (e : Event)
| ReceiveProps (nextProps : Props)
| Unmount.

Definition act (a : Action) (w : World) : option World :=
  match a with
  | Deliver e => step e w
  | ReceiveProps nextProps => Some (receiveProps nextProps w)
  | Unmount => Some (unmount w)
  end.

Fixpoint play (acts : list Action) (w : World) : option World :=
  match acts with
  | [] => Some w
  | a :: acts' => w' ← act a w; play acts' w'
  end.

End Lifecycle.

(** The two outcomes of a resolution, as the state encodes them. *)
Definition is_Cached (s : State) (path : string) : Prop :=
  cacheable s = true /\ cachedImagePath s = Some path.

Definition is_Unavailable (s : State) : Prop :=
  cacheable s = false /\ cachedImagePath s = None.

(** ** Notions used in the statements *)

(** Hexadecimal digits as [toString] writes them, and 32-bit words. *)
Definition is_hex_digit (c : ascii) : bool :=
  is_digit c || ((97 <=? nat_of_ascii c) && (nat_of_ascii c <=? 102))%nat.



(** A text that fits on one line. *)
Definition no_line_terminator (s : string) : bool :=
  Str.all_chars (fun c => negb (is_line_terminator c)) s.


(** The world once the existence check of [checkImageCache] has settled. *)
Definition after_stat (imageUri dirPath filePath : string) (w : World)
    (rest : list Promise) : World :=
  match fs w !! filePath with
  | Some File =>
      mkWorld (mkComponent (props (component w))
                 (set_cache true (Some filePath) (state (component w))))
              (fs w) (connected w) (listening w) rest (calls w)
  | Some Directory =>
      mkWorld (component w) (fs w) (connected w) (listening w) rest (calls w)
  | None =>
      if networkAvailable (state (component w)) then
        mkWorld (component w) (fs w) (connected w) (listening w)
                (rest ++ [(RNFS_mkdir dirPath true,
                           MkdirChain imageUri dirPath filePath)])
                (calls w ++ [RNFS_mkdir dirPath true])
      else
        mkWorld (mkComponent (props (component w))
                   (set_cache false None (state (component w))))
                (fs w) (connected w) (listening w) rest (calls w)
  end.

(** The world [w] once a promise has settled: [rest] is still pending, the
    callback has left the component [c'] and the files [files], and issued
    the calls [new]. *)
Definition world_with (w : World) (rest : list Promise) (c' : Component)
    (files : gmap string Node) (new : list Promise) : World :=
  mkWorld c' files (connected w) (listening w) (rest ++ new)
          (calls w ++ map fst new).

Definition delete_request (filePath : string) : Promise :=
  (RNFS_exists filePath, ExistsChain filePath).

Definition unlink_request (filePath : string) : Promise :=
  (RNFS_unlink filePath, UnlinkChain).

Definition download_request (imageUri filePath : string) : Promise :=
  (RNFS_downloadFile imageUri filePath true, DownloadChain filePath).

(** ** A component that changes its source *)

Module Scenario.

Definition D : string := "/docs".
Definition uriA : string := "https://cdn.example.com/img/photo.JPG".
Definition uriB : string := "https://cdn.example.com/img/other.png".
Definition propsA : Props := mkProps (SrcObject 1 (Some uriA)) (PolicyBool false).
Definition propsB : Props := mkProps (SrcObject 2 (Some uriB)) (PolicyBool false).

Definition dir : string := D +:+ "/" +:+ host (URL uriA).

Definition file (uri : string) : string :=
  dir +:+ "/" +:+ cacheKey_of (PolicyBool false) (URL uri).

Definition stat (uri : string) : Promise :=
  (RNFS_stat (file uri), StatChain uri dir (file uri)).

Definition mkdir (uri : string) : Promise :=
  (RNFS_mkdir dir true, MkdirChain uri dir (file uri)).

Definition download (uri : string) : Promise :=
  download_request uri (file uri).

Definition fetch : Promise := (NetInfo_fetch, FetchChain).

(** The first image: connectivity is known before the lookup settles, the
    lookup misses, the directory is created and the download succeeds. *)
Definition first_load : list Event :=
  [Settle fetch true; Settle (stat uriA) true; Settle (mkdir uriA) true;
   Begin (download uriA) 1; Progress (download uriA) (mkProgress 2048 2048);
   Settle (download uriA) true].

(** The second image: the lookup misses and the directory is there. *)
Definition second_load : list Event :=
  [Settle (stat uriB) true; Settle (mkdir uriB) true].

End Scenario.

(** ** The connectivity callbacks *)

Definition connectivity_event (e : Event) : bool :=
  match e with
  | ConnectivityChange _ => true
  | Settle (_, FetchChain) _ => true
  | _ => false
  end.

Definition connectivity_action (a : Action) : bool :=
  match a with
  | Deliver e => connectivity_event e
  | _ => false
  end.

Definition quiet_call (c : Call) : bool :=
  match c with
  | RNFS_mkdir _ _ | RNFS_downloadFile _ _ _ => false
  | _ => true
  end.

Definition quiet_chain (k : Callbacks) : bool :=
  match k with
  | MkdirChain _ _ _ | DownloadChain _ => false
  | _ => true
  end.

(** While the flag is off, no directory was created, no download was
    started, and none is under way. *)
Record offline (w : World) : Prop := mkOffline {
  offline_flag : networkAvailable (state (component w)) = false;
  offline_pending : Forall (fun q => quiet_chain (snd q) = true) (pending w);
  offline_calls : Forall (fun c => quiet_call c = true) (calls w)
}.

(** ** Rendering

    What [render] returns, reduced to the element and the source it shows.
    [defaultSource] is the prop of that name, absent when [None]; the props
    handed on by [renderLocal] include [source], and the element built by
    [renderDefaultSource] is a component of the same class whose source is
    the default source. *)
Inductive Element :=
| ResponsiveImage (source : Source)
| ResponsiveImageUri (uri : string)
| CacheableImageElement (source : Source)
| ActivityIndicator.

Definition truthy_source (src : option Source) : bool :=
  match src with
  | Some (SrcObject _ _) => true
  | Some (SrcNumber n) => negb (n =? 0)
  | Some SrcNull | None => false
  end.

Definition renderCache (c : Component) : Element :=
  ResponsiveImageUri
    ("file://" +:+ default EmptyString (cachedImagePath (state c))).

Definition renderLocal (c : Component) : Element :=
  ResponsiveImage (source (props c)).

Definition renderDefaultSource (defaultSource : option Source) : Element :=
  CacheableImageElement (default SrcNull defaultSource).

Definition render (defaultSource : option Source) (c : Component) : Element :=
  if negb (isRemote (state c)) then renderLocal c
  else if cacheable (state c) && truthy_path (cachedImagePath (state c))
       then renderCache c
  else if truthy_source defaultSource then renderDefaultSource defaultSource
  else ActivityIndicator.

(** ** The log of native calls

    [under D path]: the path lies, as a text, below the documents directory.
    A call is justified by the calls made before it when its path lies
    below the documents directory and when it is a call that the code only
    makes after another one: a directory is created (excluded from backup)
    after the status of a path in it was asked, a download (in the
    background) goes to a path whose status was asked and whose directory
    was created, the existence of a path is checked after its status was
    asked, a path is removed after its existence was checked, and a
    download is stopped after one was started. *)
Definition under (D path : string) : Prop :=
  exists rest, path = D +:+ "/" +:+ rest.

Definition call_path (c : Call) : option string :=
  match c with
  | RNFS_stat path | RNFS_mkdir path _ | RNFS_downloadFile _ path _
  | RNFS_exists path | RNFS_unlink path => Some path
  | _ => None
  end.

Definition justified (D : string) (earlier : list Call) (c : Call) : Prop :=
  (forall path, call_path c = Some path -> under D path)
  /\ match c with
     | RNFS_mkdir dirPath flag =>
         flag = true
         /\ exists cacheKey, RNFS_stat (dirPath +:+ "/" +:+ cacheKey) ∈ earlier
     | RNFS_downloadFile _ toFile background =>
         background = true
         /\ RNFS_stat toFile ∈ earlier
         /\ exists dirPath cacheKey,
             toFile = dirPath +:+ "/" +:+ cacheKey
             /\ RNFS_mkdir dirPath true ∈ earlier
     | RNFS_exists filePath => RNFS_stat filePath ∈ earlier
     | RNFS_unlink filePath => RNFS_exists filePath ∈ earlier
     | RNFS_stopDownload _ =>
         exists fromUrl toFile, RNFS_downloadFile fromUrl toFile true ∈ earlier
     | _ => True
     end.

Inductive log_ok (D : string) : list Call -> Prop :=
| log_ok_nil : log_ok D []
| log_ok_snoc l c : log_ok D l -> justified D l c -> log_ok D (l ++ [c]).

(** A pending promise as the component issues it: the call and the
    closure of its callbacks speak of the same paths, and the calls that
    lead to it are in the log. *)
Definition promise_ok (D : string) (log : list Call) (q : Promise) : Prop :=
  match q with
  | (RNFS_stat path, StatChain _ dirPath filePath) =>
      path = filePath /\ under D dirPath
      /\ (exists cacheKey, filePath = dirPath +:+ "/" +:+ cacheKey)
      /\ RNFS_stat filePath ∈ log
  | (RNFS_mkdir path flag, MkdirChain _ dirPath filePath) =>
      path = dirPath /\ flag = true /\ under D dirPath
      /\ (exists cacheKey, filePath = dirPath +:+ "/" +:+ cacheKey)
      /\ RNFS_stat filePath ∈ log /\ RNFS_mkdir dirPath true ∈ log
  | (RNFS_downloadFile fromUrl toFile background, DownloadChain filePath) =>
      toFile = filePath /\ background = true /\ under D filePath
      /\ RNFS_stat filePath ∈ log
      /\ RNFS_downloadFile fromUrl filePath true ∈ log
  | (RNFS_exists path, ExistsChain filePath) =>
      path = filePath /\ under D filePath /\ RNFS_exists filePath ∈ log
  | (RNFS_unlink _, UnlinkChain) => True
  | (NetInfo_fetch, FetchChain) => True
  | _ => False
  end.

Record traced (D : string) (w : World) : Prop := mkTraced {
  traced_pending : Forall (promise_ok D (calls w)) (pending w);
  traced_log : log_ok D (calls w);
  traced_download :
    downloading (state (component w)) = true ->
    exists fromUrl toFile, RNFS_downloadFile fromUrl toFile true ∈ calls w
}.

(** Props that keep the component on a local source. *)
Definition local_action (a : Action) : bool :=
  match a with
  | ReceiveProps nextProps => negb (hasOwnProperty_uri (source nextProps))
  | _ => true
  end.

Definition listener_call (c : Call) : bool :=
  match c with
  | NetInfo_addEventListener | NetInfo_removeEventListener | NetInfo_fetch =>
      true
  | _ => false
  end.

(** * Properties *)

(** ** The models of the libraries, on known values *)

Example sha1_empty :
  SHA1.SHA1 EmptyString = "da39a3ee5e6b4b0d3255bfef95601890afd80709"%string.
Proof. vm_compute. reflexivity. Qed.

Example sha1_abc :
  SHA1.SHA1 "abc" = "a9993e364706816aba3e25717850c26c9cd0d89d"%string.
Proof. vm_compute. reflexivity. Qed.

Example sha1_two_blocks :
  SHA1.SHA1 "abcdbcdecdefdefgefghfghighijhijkijkljklmklmnlmnomnopnopq"
  = "84983e441c3bd26ebaae4aa1f95129e5e54670f1"%string.
Proof. vm_compute. reflexivity. Qed.

Example URL_scenario :
  URL "https://cdn.example.com/img/photo.JPG?v=2"
  = {| protocol := "https:"; host := "cdn.example.com";
       pathname := "/img/photo.JPG"; query := {[ "v"%string := "2"%string ]};
       hash := EmptyString |}.
Proof. vm_compute. reflexivity. Qed.

Example URL_port_auth :
  URL "HTTP://user:pw@Example.COM:8080/a/b.png?x=1&y=&z#top"
  = {| protocol := "http:"; host := "example.com:8080";
       pathname := "/a/b.png";
       query := <["x"%string := "1"%string]>
                  (<["y"%string := EmptyString]> {[ "z"%string := EmptyString ]});
       hash := "#top" |}.
Proof. vm_compute. reflexivity. Qed.

Example URL_default_port :
  host (URL "https://cdn.example.com:443/x") = "cdn.example.com"%string.
Proof. vm_compute. reflexivity. Qed.

Example replace_extension_plain :
  replace_extension "/img/photo.JPG" = "JPG"%string
  /\ replace_extension "/img/archive.tar.gz" = "gz"%string
  /\ replace_extension "/img/photo" = "/img/photo"%string
  /\ replace_extension "/v1.2/photo" = "2/photo"%string.
Proof. vm_compute. repeat split. Qed.

(** A path of two lines: the expression matches within the first line that
    holds a dot, which is why the extension is characterised on paths
    without line terminators. *)
Example replace_extension_two_lines :
  replace_extension ("/a.b" +:+ String "010" "c.d")
  = "b" +:+ String "010" "c.d".
Proof. vm_compute. reflexivity. Qed.

(** ** Strings *)

Section StringFacts.

Implicit Types s t u : string.

Lemma app_cons c s t : String c s +:+ t = String c (s +:+ t).
Proof. reflexivity. Qed.

Lemma app_empty_l s : EmptyString +:+ s = s.
Proof. reflexivity. Qed.

Lemma app_empty_r s : s +:+ EmptyString = s.
Proof. induction s as [|c s IH]; [done|]. by rewrite app_cons, IH. Qed.

Lemma app_assoc_s s t u : (s +:+ t) +:+ u = s +:+ (t +:+ u).
Proof. induction s as [|c s IH]; [done|]. by rewrite !app_cons, IH. Qed.


Lemma app_inv_head_s s t u : s +:+ t = s +:+ u -> t = u.
Proof.
  induction s as [|c s IH]; [done|]. rewrite !app_cons. intros [=]. auto.
Qed.

(** Two concatenations that agree and whose first parts have the same
    length agree part by part. *)
Lemma app_inj_length s s' t t' :
  String.length s = String.length s' ->
  s +:+ t = s' +:+ t' -> s = s' /\ t = t'.
Proof.
  revert s'. induction s as [|c s IH]; intros [|c' s'] Hlen Heq;
    try discriminate.
  - done.
  - rewrite !app_cons in Heq. injection Heq as -> Heq.
    destruct (IH s') as [-> ->]; [by injection Hlen | done | done].
Qed.

Lemma length_of_list (l : list ascii) :
  String.length (Str.of_list l) = length l.
Proof. induction l as [|c l IH]; [done|]. simpl. by rewrite IH. Qed.

Lemma all_chars_of_list p (l : list ascii) :
  Forall (fun c => p c = true) l -> Str.all_chars p (Str.of_list l) = true.
Proof.
  induction 1 as [|c l Hc _ IH]; [done|]. simpl. by rewrite Hc, IH.
Qed.

Lemma span_all p s : Str.all_chars p s = true -> Str.span p s = (s, EmptyString).
Proof.
  induction s as [|c s IH]; [done|]. simpl.
  intros [Hc Hs]%andb_prop. by rewrite Hc, IH.
Qed.

Lemma mem_app c s t : Str.mem c (s +:+ t) = Str.mem c s || Str.mem c t.
Proof.
  induction s as [|d s IH]; [done|]. rewrite app_cons. simpl.
  by destruct (Ascii.eqb c d).
Qed.

End StringFacts.

(** ** The digest is 160 bits, rendered as forty hexadecimal digits *)


Section DigestFacts.

Import SHA1.







Lemma hex_digit_ok n : 0 <= n < 16 -> is_hex_digit (hex_digit n) = true.
Proof.
  intros [Hlow Hhigh]. rewrite <- (Z2Nat.id n Hlow).
  assert (Z.to_nat n < 16)%nat as Hm by lia. revert Hm.
  generalize (Z.to_nat n) as m. intros m Hm.
  do 16 (destruct m as [|m]; [reflexivity|]). lia.
Qed.

Lemma hex_byte_ok x :
  Forall (fun c => is_hex_digit c = true) (hex_byte (Z.land x 255)).
Proof.
  unfold hex_byte. repeat constructor; apply hex_digit_ok.
  - change 255 with (Z.ones 8). rewrite Z.land_ones, Z.shiftr_div_pow2 by lia.
    pose proof (Z.mod_pos_bound x (2 ^ 8) ltac:(lia)).
    split; [apply Z.div_pos; lia | apply Z.div_lt_upper_bound; lia].
  - change 15 with (Z.ones 4). rewrite Z.land_ones by lia.
    apply Z.mod_pos_bound. lia.
Qed.

Lemma hex_word_length w : length (hex_word w) = 8%nat.
Proof. reflexivity. Qed.

Lemma hex_word_ok w : Forall (fun c => is_hex_digit c = true) (hex_word w).
Proof.
  unfold hex_word. apply Forall_concat. simpl be_bytes.
  repeat (apply Forall_cons_2; [apply hex_byte_ok|]). apply Forall_nil_2.
Qed.

Lemma SHA1_length s : String.length (SHA1 s) = 40%nat.
Proof. unfold SHA1. rewrite length_of_list. reflexivity. Qed.

Lemma SHA1_hex s : Str.all_chars is_hex_digit (SHA1 s) = true.
Proof.
  unfold SHA1. apply all_chars_of_list, Forall_concat, Forall_map, Forall_true.
  intros w. apply hex_word_ok.
Qed.

End DigestFacts.

(** ** The extension *)


Section ExtensionFacts.

Implicit Types s stem ext : string.

Lemma after_last_dot_None s :
  after_last_dot s = None <-> Str.mem "." s = false.
Proof.
  induction s as [|c s IH]; [done|]. cbn [after_last_dot Str.mem].
  rewrite (Ascii.eqb_sym "." c).
  destruct (after_last_dot s) as [t|].
  - assert (Str.mem "." s <> false) as Hs by (rewrite <- IH; discriminate).
    destruct (Ascii.eqb c "."); [done|].
    split; [done|]. intros H. by destruct Hs.
  - destruct (Ascii.eqb c "."); [done|].
    split; [|done]. intros _. by apply IH.
Qed.

Lemma after_last_dot_app stem ext :
  Str.mem "." ext = false ->
  after_last_dot (stem +:+ "." +:+ ext) = Some ext.
Proof.
  intros Hext. induction stem as [|c stem IH].
  - rewrite app_empty_l, app_cons, app_empty_l. cbn [after_last_dot].
    apply after_last_dot_None in Hext as ->. by rewrite Ascii.eqb_refl.
  - rewrite app_cons. cbn [after_last_dot]. by rewrite IH.
Qed.

Lemma after_last_dot_shorter s t :
  after_last_dot s = Some t -> (String.length t < String.length s)%nat.
Proof.
  revert t. induction s as [|c s IH]; intros t; [done|].
  cbn [after_last_dot String.length].
  destruct (after_last_dot s) as [u|].
  - intros [= <-]. specialize (IH u eq_refl). lia.
  - destruct (Ascii.eqb c "."); [|done]. intros [= <-]. lia.
Qed.

Lemma match_here_line s :
  no_line_terminator s = true ->
  match_here s = (fun capture => (capture, EmptyString)) <$> after_last_dot s.
Proof.
  intros Hs. unfold match_here. rewrite (span_all _ _ Hs).
  by destruct (after_last_dot s).
Qed.

(** On a single line the replacement yields what follows the last dot,
    and leaves a text without a dot as it is. *)
Lemma replace_extension_line s :
  no_line_terminator s = true ->
  replace_extension s = default s (after_last_dot s).
Proof.
  induction s as [|c s IH]; intros Hs; [done|].
  pose proof (match_here_line _ Hs) as Hm.
  cbn [replace_extension]. rewrite Hm.
  destruct (after_last_dot (String c s)) as [t|] eqn:Hdot; simpl.
  - apply app_empty_r.
  - f_equal. apply andb_prop in Hs as [_ Hs]. rewrite (IH Hs).
    cbn [after_last_dot] in Hdot. by destruct (after_last_dot s).
Qed.

Lemma extension_of_line (url : Url) :
  no_line_terminator (pathname url) = true ->
  extension_of url = default EmptyString (after_last_dot (pathname url)).
Proof.
  intros Hline. unfold extension_of, type_of.
  rewrite (replace_extension_line _ Hline).
  destruct (after_last_dot (pathname url)) as [t|] eqn:Hdot; simpl.
  - apply after_last_dot_shorter in Hdot.
    by apply Nat.ltb_lt in Hdot as ->.
  - by rewrite Nat.ltb_irrefl.
Qed.








End ExtensionFacts.

(** ** What [_processSource] asks the file system *)




(** ** The array policy *)

Section ArrayPolicy.

Implicit Types q : gmap string string.




Context (q1 q2 : gmap string string) (k v1 v2 : string).
Hypothesis Hq1 : q1 !! k = Some v1.
Hypothesis Hq2 : q2 !! k = Some v2.
Hypothesis Hothers : forall k', k' <> k -> q1 !! k' = q2 !! k'.




End ArrayPolicy.





(** C2, as the code has it. A truthy policy that is not an array appends
    [url.query] to the path; the query has been parsed into an object, whose
    string form does not depend on its content.  The identity string is the
    path followed by "[object Object]", and replacing the query of a locator
    by any other leaves its key unchanged. *)
Theorem C2_boolean_policy_ignores_query (url : Url) (q : gmap string string) :
  cacheable_of (PolicyBool true) url = pathname url +:+ "[object Object]"
  /\ cacheKey_of (PolicyBool true)
       (mkUrl (protocol url) (host url) (pathname url) q (hash url))
     = cacheKey_of (PolicyBool true) url
  /\ (let u1 := URL "https://cdn.example.com/img/photo.JPG?v=1" in
      let u2 := URL "https://cdn.example.com/img/photo.JPG?v=2" in
      query u1 <> query u2
      /\ cacheable_of (PolicyBool true) u1 = "/img/photo.JPG[object Object]"
      /\ cacheable_of (PolicyBool true) u2 = "/img/photo.JPG[object Object]"
      /\ cacheKey_of (PolicyBool true) u1 = cacheKey_of (PolicyBool true) u2).
Proof.
  split; [reflexivity|]. split; [reflexivity|].
  vm_compute. split; [discriminate|done].
Qed.

(** ** Pending promises *)

Section TakeOut.

Implicit Types (p q : Promise) (l rest : list Promise).

Lemma take_out_elem p l : p ∈ l -> is_Some (take_out p l).
Proof.
  induction l as [|q l IH]; intros Hp; [by apply elem_of_nil in Hp|].
  simpl. destruct (decide (p = q)) as [|Hpq]; [by eexists|].
  apply elem_of_cons in Hp as [?|Hp]; [done|].
  destruct (IH Hp) as [rest ->]. by eexists.
Qed.

Lemma take_out_sub p l rest :
  take_out p l = Some rest -> forall q, q ∈ rest -> q ∈ l.
Proof.
  revert rest. induction l as [|r l IH]; intros rest; [done|]. simpl.
  destruct (decide (p = r)) as [|Hpr].
  - intros [= <-] q Hq. by apply elem_of_cons; right.
  - destruct (take_out p l) as [rest'|]; [|done]. simpl.
    intros [= <-] q [->|Hq]%elem_of_cons; apply elem_of_cons; eauto.
Qed.

Lemma take_out_here p l : take_out p (p :: l) = Some l.
Proof. simpl. by rewrite decide_True. Qed.

End TakeOut.

(** Evaluate a handler: unfold the monad and the promise combinators. *)
Ltac exec :=
  repeat (unfold run_handler, then_catch, then_only, catch_only, try_catch,
            mbind, M_bind, mret, M_ret, this_state, this_props, setState,
            invoke, perform, throw;
          simpl).

(** ** Settling the existence check of [checkImageCache] *)

Section StatSettles.

Context (imageUri dirPath filePath : string).

Let p : Promise :=
  (RNFS_stat filePath, StatChain imageUri dirPath filePath).


Lemma step_stat (w : World) (ok : bool) (rest : list Promise) :
  take_out p (pending w) = Some rest ->
  step (Settle p ok) w
  = Some (after_stat imageUri dirPath filePath w rest).
Proof.
  intros Hrest. unfold step, after_stat. rewrite Hrest. simpl.
  unfold native_stat. destruct w as [[pr st] files conn lis pend cs].
  simpl in *. destruct (files !! filePath) as [[]|]; simpl.
  - unfold stat_then. exec. by rewrite !app_nil_r.
  - unfold stat_then. exec. by rewrite !app_nil_r.
  - unfold stat_catch. exec.
    destruct (networkAvailable st); simpl; [done|]. by rewrite !app_nil_r.
Qed.

End StatSettles.

(** C5. When the existence check fails and the network flag is off, the
    state becomes Unavailable and no native call is made: neither the
    directory creation nor the download. *)
Theorem C5_miss_without_network (imageUri dirPath filePath : string)
    (w : World) (ok : bool) :
  (RNFS_stat filePath, StatChain imageUri dirPath filePath) ∈ pending w ->
  fs w !! filePath = None ->
  networkAvailable (state (component w)) = false ->
  exists w',
    step (Settle (RNFS_stat filePath, StatChain imageUri dirPath filePath) ok) w
    = Some w'
    /\ is_Unavailable (state (component w'))
    /\ calls w' = calls w
    /\ (forall q, q ∈ pending w' -> q ∈ pending w)
    /\ fs w' = fs w.
Proof.
  intros Hp Hfs Hnet. destruct (take_out_elem _ _ Hp) as [rest Hrest].
  exists (after_stat imageUri dirPath filePath w rest).
  split; [by apply step_stat|]. unfold after_stat. rewrite Hfs, Hnet. simpl.
  repeat split. by apply (take_out_sub _ _ _ Hrest).
Qed.

Lemma C5_miss_without_network_witness :
  let filePath := "/docs/cdn.example.com/k.JPG" in
  let p := (RNFS_stat filePath,
            StatChain "https://cdn.example.com/img/photo.JPG"
                      "/docs/cdn.example.com" filePath) in
  let w := mkWorld (constructor (mkProps SrcNull (PolicyBool false)))
                   ∅ true true [p] [RNFS_stat filePath] in
  exists w',
    step (Settle p true) w = Some w'
    /\ is_Unavailable (state (component w'))
    /\ calls w' = [RNFS_stat filePath].
Proof.
  intros filePath p w.
  destruct (C5_miss_without_network
              "https://cdn.example.com/img/photo.JPG" "/docs/cdn.example.com"
              filePath w true) as (w' & Hstep & Hstate & Hcalls & _).
  - apply list_elem_of_singleton. reflexivity.
  - reflexivity.
  - reflexivity.
  - exists w'. repeat split; try apply Hstate; assumption.
Defined.

(** C6. [checkImageCache] only asks for the status of the derived path;
    when that path is a regular file the state becomes Cached with that
    path, and settling makes no native call: the resolution never reaches
    the download. *)
Theorem C6_hit (imageUri dirPath filePath : string) (w : World) (ok : bool) :
  (RNFS_stat filePath, StatChain imageUri dirPath filePath) ∈ pending w ->
  fs w !! filePath = Some File ->
  (forall D cachePath cacheKey c,
      checkImageCache D imageUri cachePath cacheKey c
      = (Normal tt, c,
         [(RNFS_stat (D +:+ "/" +:+ cachePath +:+ "/" +:+ cacheKey),
           Some (StatChain imageUri (D +:+ "/" +:+ cachePath)
                   (D +:+ "/" +:+ cachePath +:+ "/" +:+ cacheKey)))]))
  /\ exists w',
      step (Settle (RNFS_stat filePath, StatChain imageUri dirPath filePath)
              ok) w = Some w'
      /\ is_Cached (state (component w')) filePath
      /\ calls w' = calls w
      /\ (forall q, q ∈ pending w' -> q ∈ pending w)
      /\ fs w' = fs w.
Proof.
  intros Hp Hfs. split.
  - intros D cachePath cacheKey c. unfold checkImageCache, invoke.
    by rewrite !app_assoc_s.
  - destruct (take_out_elem _ _ Hp) as [rest Hrest].
    exists (after_stat imageUri dirPath filePath w rest).
    split; [by apply step_stat|]. unfold after_stat. rewrite Hfs. simpl.
    repeat split. by apply (take_out_sub _ _ _ Hrest).
Qed.

Lemma C6_hit_witness :
  let filePath := "/docs/cdn.example.com/k.JPG" in
  let p := (RNFS_stat filePath,
            StatChain "https://cdn.example.com/img/photo.JPG"
                      "/docs/cdn.example.com" filePath) in
  let w := mkWorld (constructor (mkProps SrcNull (PolicyBool false)))
                   {[ filePath := File ]} true true [p] [RNFS_stat filePath] in
  exists w',
    step (Settle p true) w = Some w'
    /\ is_Cached (state (component w')) filePath
    /\ calls w' = [RNFS_stat filePath].
Proof.
  intros filePath p w.
  destruct (C6_hit "https://cdn.example.com/img/photo.JPG"
              "/docs/cdn.example.com" filePath w true)
    as (_ & w' & Hstep & Hstate & Hcalls & _).
  - apply list_elem_of_singleton. reflexivity.
  - reflexivity.
  - exists w'. repeat split; try apply Hstate; assumption.
Defined.

(** C9, as the code has it. The existence check reports a hit exactly when
    the derived path is a regular file.  When the path is a directory the
    promise is fulfilled, the rejection callback does not run, and nothing
    happens: the state is left as it was and no native call is made. *)
Theorem C9_hit_only_for_files (imageUri dirPath filePath : string)
    (w : World) (ok : bool) :
  (RNFS_stat filePath, StatChain imageUri dirPath filePath) ∈ pending w ->
  exists w',
    step (Settle (RNFS_stat filePath, StatChain imageUri dirPath filePath) ok) w
    = Some w'
    /\ (fs w !! filePath = Some File ->
        is_Cached (state (component w')) filePath)
    /\ (fs w !! filePath <> Some File ->
        component w' = component w \/ is_Unavailable (state (component w')))
    /\ (fs w !! filePath = Some Directory ->
        component w' = component w /\ calls w' = calls w /\ fs w' = fs w
        /\ forall q, q ∈ pending w' -> q ∈ pending w).
Proof.
  intros Hp. destruct (take_out_elem _ _ Hp) as [rest Hrest].
  exists (after_stat imageUri dirPath filePath w rest).
  split; [by apply step_stat|]. unfold after_stat.
  destruct (fs w !! filePath) as [[]|]; simpl.
  - split; [done|]. split; [by intros []|done].
  - split; [done|]. split; [by left|]. intros _. repeat split.
    by apply (take_out_sub _ _ _ Hrest).
  - split; [done|]. split; [|done]. intros _.
    destruct (networkAvailable _); simpl; [by left|by right].
Qed.

Lemma C9_hit_only_for_files_witness :
  let filePath := "/docs/cdn.example.com/k.JPG" in
  let p := (RNFS_stat filePath,
            StatChain "https://cdn.example.com/img/photo.JPG"
                      "/docs/cdn.example.com" filePath) in
  let w := mkWorld (constructor (mkProps SrcNull (PolicyBool false)))
                   {[ filePath := Directory ]} true true [p]
                   [RNFS_stat filePath] in
  exists w',
    step (Settle p true) w = Some w'
    /\ component w' = component w /\ calls w' = calls w.
Proof.
  intros filePath p w.
  destruct (C9_hit_only_for_files "https://cdn.example.com/img/photo.JPG"
              "/docs/cdn.example.com" filePath w true)
    as (w' & Hstep & _ & _ & Hdir).
  - apply list_elem_of_singleton. reflexivity.
  - exists w'. split; [assumption|].
    destruct (Hdir eq_refl) as (Hc & Hcalls & _). by split.
Defined.

(** A directory is not treated as an absent file: with the network flag
    on, an absent path leads to the creation of the directory, a directory
    at the path leads to nothing. *)
Lemma C9_counterexample :
  let filePath := "/docs/cdn.example.com/k.JPG" in
  let dirPath := "/docs/cdn.example.com" in
  let p := (RNFS_stat filePath,
            StatChain "https://cdn.example.com/img/photo.JPG" dirPath
                      filePath) in
  let c := mkComponent (mkProps SrcNull (PolicyBool false))
                       (mkState true None false true None true) in
  let absent := mkWorld c ∅ true true [p] [RNFS_stat filePath] in
  let directory :=
    mkWorld c {[ filePath := Directory ]} true true [p] [RNFS_stat filePath] in
  step (Settle p true) absent
  = Some (mkWorld c ∅ true true
            [(RNFS_mkdir dirPath true,
              MkdirChain "https://cdn.example.com/img/photo.JPG" dirPath
                         filePath)]
            [RNFS_stat filePath; RNFS_mkdir dirPath true])
  /\ step (Settle p true) directory
     = Some (mkWorld c {[ filePath := Directory ]} true true []
               [RNFS_stat filePath]).
Proof. split; reflexivity. Qed.

(** ** Settling the other promises *)

Section OtherPromises.

Context (w : World) (rest : list Promise).

Let c := component w.


Lemma step_download_fulfilled fromUrl toFile background filePath :
  take_out (RNFS_downloadFile fromUrl toFile background,
            DownloadChain filePath) (pending w) = Some rest ->
  step (Settle (RNFS_downloadFile fromUrl toFile background,
                DownloadChain filePath) true) w
  = Some (world_with w rest
            (mkComponent (props c) (set_cache true (Some filePath) (state c)))
            (<[toFile := File]> (fs w)) []).
Proof.
  intros Hrest. unfold step. rewrite Hrest. simpl. unfold download_then.
  exec. reflexivity.
Qed.

Lemma step_download_rejected fromUrl toFile background filePath :
  take_out (RNFS_downloadFile fromUrl toFile background,
            DownloadChain filePath) (pending w) = Some rest ->
  step (Settle (RNFS_downloadFile fromUrl toFile background,
                DownloadChain filePath) false) w
  = Some (world_with w rest
            (mkComponent (props c) (set_cache false None (state c)))
            (fs w) [delete_request filePath]).
Proof.
  intros Hrest. unfold step. rewrite Hrest. simpl.
  unfold download_catch, _deleteFilePath. exec. reflexivity.
Qed.

Lemma step_exists path filePath ok :
  take_out (RNFS_exists path, ExistsChain filePath) (pending w) = Some rest ->
  step (Settle (RNFS_exists path, ExistsChain filePath) ok) w
  = Some (world_with w rest c (fs w)
            (if bool_decide (is_Some (fs w !! path))
             then [unlink_request filePath] else [])).
Proof.
  intros Hrest. unfold step. rewrite Hrest. simpl. unfold exists_then.
  exec. destruct (bool_decide _); reflexivity.
Qed.

Lemma step_unlink path ok :
  take_out (RNFS_unlink path, UnlinkChain) (pending w) = Some rest ->
  step (Settle (RNFS_unlink path, UnlinkChain) ok) w
  = Some (world_with w rest c
            (if ok && bool_decide (is_Some (fs w !! path))
             then delete path (fs w) else fs w) []).
Proof.
  intros Hrest. unfold step. rewrite Hrest. simpl. unfold native_unlink.
  destruct (ok && _); exec; reflexivity.
Qed.

Lemma step_mkdir_rejected path flag imageUri dirPath filePath :
  take_out (RNFS_mkdir path flag, MkdirChain imageUri dirPath filePath)
           (pending w) = Some rest ->
  step (Settle (RNFS_mkdir path flag, MkdirChain imageUri dirPath filePath)
          false) w
  = Some (world_with w rest
            (mkComponent (props c) (set_cache false None (state c)))
            (fs w) [delete_request filePath]).
Proof.
  intros Hrest. unfold step. rewrite Hrest. simpl.
  unfold mkdir_catch, _deleteFilePath. exec. reflexivity.
Qed.

(** Once the directory exists: with no earlier entry the download starts;
    with an earlier entry the callback calls [this.deleteFilePath], which
    the instance does not have, and the rejection callback of the chain
    takes over. *)
Lemma step_mkdir_fulfilled path flag imageUri dirPath filePath :
  take_out (RNFS_mkdir path flag, MkdirChain imageUri dirPath filePath)
           (pending w) = Some rest ->
  step (Settle (RNFS_mkdir path flag, MkdirChain imageUri dirPath filePath)
          true) w
  = Some (let files := match fs w !! path with
                       | Some _ => fs w
                       | None => <[path := Directory]> (fs w)
                       end in
          if cacheable (state c) && truthy_path (cachedImagePath (state c))
          then world_with w rest
                 (mkComponent (props c) (set_cache false None (state c)))
                 files [delete_request filePath]
          else world_with w rest c files [download_request imageUri filePath]).
Proof.
  intros Hrest. unfold step. rewrite Hrest. simpl.
  unfold mkdir_then, mkdir_catch, this_call, _deleteFilePath. exec.
  destruct (cacheable _ && _); exec; reflexivity.
Qed.

End OtherPromises.

(** C7, as the code has it. When the download fails, the rejection callback
    requests the deletion of the destination (the existence check is
    issued) and sets the state to Unavailable in the same turn; the file
    system is still as the transfer left it.  The file is removed later:
    when the existence check has settled and found the path, the removal is
    issued, and when the removal succeeds no file is left at the
    destination.  A removal that fails is swallowed: nothing changes and
    nothing more is called. *)
Theorem C7_failed_download (fromUrl filePath : string) (background : bool)
    (w : World) :
  (RNFS_downloadFile fromUrl filePath background, DownloadChain filePath)
    ∈ pending w ->
  (forall path c,
      _deleteFilePath path c
      = (Normal tt, c, [(RNFS_exists path, Some (ExistsChain path))]))
  /\ (forall c, catch_only unlink_catch (inr Rejected : unit + Error) c
                = (Normal tt, c, []))
  /\ exists w1,
      step (Settle (RNFS_downloadFile fromUrl filePath background,
                    DownloadChain filePath) false) w = Some w1
      /\ is_Unavailable (state (component w1))
      /\ fs w1 = fs w
      /\ calls w1 = calls w ++ [RNFS_exists filePath]
      /\ forall ok, exists w2,
          step (Settle (delete_request filePath) ok) w1 = Some w2
          /\ component w2 = component w1
          /\ fs w2 = fs w
          /\ (fs w !! filePath = None -> calls w2 = calls w1)
          /\ (is_Some (fs w !! filePath) ->
              calls w2 = calls w1 ++ [RNFS_unlink filePath]
              /\ forall removed, exists w3,
                  step (Settle (unlink_request filePath) removed) w2 = Some w3
                  /\ component w3 = component w2
                  /\ calls w3 = calls w2
                  /\ (removed = true -> fs w3 !! filePath = None)
                  /\ (removed = false -> fs w3 = fs w)).
Proof.
  intros Hp. split; [done|]. split; [done|].
  destruct (take_out_elem _ _ Hp) as [rest Hrest].
  set (w1 := world_with w rest
               (mkComponent (props (component w))
                  (set_cache false None (state (component w))))
               (fs w) [delete_request filePath]).
  exists w1. split; [by apply step_download_rejected|].
  split; [done|]. split; [done|]. split; [done|]. intros ok.
  assert (delete_request filePath ∈ pending w1) as Hdel
    by (apply elem_of_app; right; by apply list_elem_of_singleton).
  destruct (take_out_elem _ _ Hdel) as [rest1 Hrest1].
  set (w2 := world_with w1 rest1 (component w1) (fs w1)
               (if bool_decide (is_Some (fs w1 !! filePath))
                then [unlink_request filePath] else [])).
  exists w2. split; [by apply step_exists|].
  split; [done|]. split; [done|]. split.
  - intros Hnone. unfold w2. cbn [calls world_with fs w1].
    rewrite Hnone. simpl. by rewrite app_nil_r.
  - intros Hsome.
    assert (pending w2 = rest1 ++ [unlink_request filePath]
            /\ calls w2 = calls w1 ++ [RNFS_unlink filePath]) as [Hpend Hcalls].
    { unfold w2. cbn [pending calls world_with fs w1].
      by rewrite (bool_decide_eq_true_2 _ Hsome). }
    split; [done|]. intros removed.
    assert (unlink_request filePath ∈ pending w2) as Hun
      by (rewrite Hpend; apply elem_of_app; right;
          by apply list_elem_of_singleton).
    destruct (take_out_elem _ _ Hun) as [rest2 Hrest2].
    eexists. split; [by apply step_unlink|].
    split; [done|]. split; [cbn [calls world_with map]; by rewrite app_nil_r|].
    cbn [fs world_with w2 w1]. rewrite (bool_decide_eq_true_2 _ Hsome).
    split; intros ->; simpl; [apply lookup_delete_eq | done].
Qed.

Lemma C7_failed_download_witness :
  let filePath := "/docs/cdn.example.com/k.JPG" in
  let p := download_request "https://cdn.example.com/img/photo.JPG" filePath in
  let w := mkWorld (constructor (mkProps SrcNull (PolicyBool false)))
                   {[ filePath := File ]} true true [p] [fst p] in
  exists w1 w2 w3,
    step (Settle p false) w = Some w1
    /\ step (Settle (delete_request filePath) true) w1 = Some w2
    /\ step (Settle (unlink_request filePath) true) w2 = Some w3
    /\ is_Unavailable (state (component w3))
    /\ fs w3 !! filePath = None.
Proof.
  intros filePath p w.
  destruct (C7_failed_download "https://cdn.example.com/img/photo.JPG"
              filePath true w)
    as (_ & _ & w1 & Hstep1 & Hstate & _ & _ & Hnext).
  { apply list_elem_of_singleton. reflexivity. }
  destruct (Hnext true) as (w2 & Hstep2 & Hc2 & _ & _ & Hsome).
  destruct Hsome as (_ & Hremove); [by eexists|].
  destruct (Hremove true) as (w3 & Hstep3 & Hc3 & _ & Hgone & _).
  exists w1, w2, w3.
  split; [exact Hstep1|]. split; [exact Hstep2|]. split; [exact Hstep3|].
  split; [rewrite Hc3, Hc2; exact Hstate|]. apply Hgone. reflexivity.
Defined.

(** The removal does not come first, and it may fail. A transfer that
    wrote part of the file and then failed leaves the state Unavailable
    while the file is still there; and when the removal fails the file stays
    for good, with nothing pending any more. *)
Lemma C7_counterexample :
  let filePath := "/docs/cdn.example.com/k.JPG" in
  let p := download_request "https://cdn.example.com/img/photo.JPG" filePath in
  let w := mkWorld (constructor (mkProps SrcNull (PolicyBool false)))
                   ∅ true true [p] [fst p] in
  (exists w1,
      run [Progress p (mkProgress 100 40); Settle p false] w = Some w1
      /\ is_Unavailable (state (component w1))
      /\ fs w1 !! filePath = Some File)
  /\ (exists w3,
        run [Progress p (mkProgress 100 40); Settle p false;
             Settle (delete_request filePath) true;
             Settle (unlink_request filePath) false] w = Some w3
        /\ is_Unavailable (state (component w3))
        /\ pending w3 = []
        /\ fs w3 !! filePath = Some File).
Proof.
  split; eexists; (split; [vm_compute; reflexivity|]); by vm_compute.
Qed.


(** C1, at the failing input. The first image of a component is downloaded
    and the state becomes Cached with its path.  When the source then
    changes to an image that is not on disk, with the network available and
    the directory in place, the callback reaches [this.deleteFilePath],
    which the instance does not have (the method is [_deleteFilePath]); the
    exception lands in the rejection callback of the directory creation.
    The old file is neither checked nor removed, no download of the new
    image is started, and the state is Unavailable. *)
Theorem C1_superseded_entry :
  let w0 := mount Scenario.D Scenario.propsA ∅ true in
  exists w1 w2,
    run Scenario.first_load w0 = Some w1
    /\ is_Cached (state (component w1)) (Scenario.file Scenario.uriA)
    /\ fs w1 !! Scenario.file Scenario.uriA = Some File
    /\ run Scenario.second_load (receiveProps Scenario.D Scenario.propsB w1)
       = Some w2
    /\ is_Unavailable (state (component w2))
    /\ fs w2 !! Scenario.file Scenario.uriA = Some File
    /\ fs w2 !! Scenario.file Scenario.uriB = None
    /\ calls w2
       = [NetInfo_addEventListener; NetInfo_fetch;
          RNFS_stat (Scenario.file Scenario.uriA);
          RNFS_mkdir Scenario.dir true;
          RNFS_downloadFile Scenario.uriA (Scenario.file Scenario.uriA) true;
          RNFS_stat (Scenario.file Scenario.uriB);
          RNFS_mkdir Scenario.dir true;
          RNFS_exists (Scenario.file Scenario.uriB)].
Proof.
  eexists. eexists.
  split; [vm_compute; reflexivity|]. split; [by vm_compute|].
  split; [by vm_compute|]. split; [vm_compute; reflexivity|].
  split; [by vm_compute|]. split; [by vm_compute|]. split; by vm_compute.
Qed.

(** C3, as the code has it. A progress observation clears the downloading
    flag and the job exactly when [contentLength / bytesWritten] is 1, that
    is when the two counts are equal and not zero; it never touches the
    cache fields.  Those are set to Cached by the fulfilment callback of the
    download. *)
Theorem C3_progress (p : Promise) (info : ProgressInfo) (w w' : World) :
  step (Progress p info) w = Some w' ->
  state (component w')
  = (if bool_decide (bytesWritten info = contentLength info
                     /\ bytesWritten info <> 0)
     then set_download false None (state (component w))
     else state (component w))
  /\ cacheable (state (component w')) = cacheable (state (component w))
  /\ cachedImagePath (state (component w'))
     = cachedImagePath (state (component w))
  /\ calls w' = calls w
  /\ (forall filePath c,
        download_then filePath tt c
        = (Normal tt,
           mkComponent (props c) (set_cache true (Some filePath) (state c)),
           [])).
Proof.
  unfold step. destruct (take_out p (pending w)) as [rest|]; [|done]. simpl.
  destruct (download_target p) as [toFile|]; [|done]. simpl.
  intros [= <-]. unfold imageDownloadProgress, divide, equals_one.
  destruct (Z.eqb_spec (bytesWritten info) 0) as [Hzero|Hzero].
  - rewrite bool_decide_eq_false_2 by (by intros [_ ?]).
    destruct (contentLength info =? 0); exec; by rewrite app_nil_r.
  - destruct (Z.eqb_spec (contentLength info) (bytesWritten info))
      as [Heq|Hneq].
    + rewrite bool_decide_eq_true_2 by done. exec. by rewrite app_nil_r.
    + rewrite bool_decide_eq_false_2 by (by intros [? _]).
      exec. by rewrite app_nil_r.
Qed.

Lemma C3_progress_witness :
  let p := download_request "https://cdn.example.com/img/photo.JPG"
                            "/docs/cdn.example.com/k.JPG" in
  let c := mkComponent (mkProps SrcNull (PolicyBool false))
                       (mkState true None true true (Some 7) true) in
  let w := mkWorld c ∅ true true [p] [fst p] in
  exists w',
    step (Progress p (mkProgress 2048 2048)) w = Some w'
    /\ downloading (state (component w')) = false
    /\ jobId (state (component w')) = None
    /\ cachedImagePath (state (component w')) = None.
Proof.
  intros p c w. eexists. split; [reflexivity|].
  match goal with
  | |- context [component ?w'] =>
      destruct (C3_progress p (mkProgress 2048 2048) w w' eq_refl)
        as (Hstate & _ & Hpath & _)
  end.
  rewrite Hpath, Hstate. repeat split.
Defined.

(** Equal counts do not always clear the flag: when both are zero the
    quotient is NaN, and the flag and the job stay. *)
Lemma C3_counterexample :
  let info := mkProgress 0 0 in
  let c := mkComponent (mkProps SrcNull (PolicyBool false))
                       (mkState true None true true (Some 7) true) in
  bytesWritten info = contentLength info
  /\ imageDownloadProgress info c = (Normal tt, c, [])
  /\ downloading (state c) = true
  /\ jobId (state c) = Some 7.
Proof. repeat split. Qed.

(** ** The network flag *)


Section NetworkFlag.

Lemma take_out_Forall (P : Promise -> Prop) p l rest :
  take_out p l = Some rest -> Forall P l -> P p /\ Forall P rest.
Proof.
  revert rest. induction l as [|q l IH]; intros rest; [done|]. simpl.
  destruct (decide (p = q)) as [->|Hpq].
  - intros [= <-] [? ?]%Forall_cons. done.
  - destruct (take_out p l) as [rest'|]; [|done]. simpl.
    intros [= <-] [? Hl]%Forall_cons. destruct (IH rest' eq_refl Hl).
    split; [done|]. by apply Forall_cons.
Qed.

Lemma step_offline e w w' :
  connectivity_event e = false -> offline w -> step e w = Some w' ->
  offline w'.
Proof.
  intros He [Hflag Hpend Hcalls] Hstep.
  destruct w as [[pr st] files conn lis pend cs]. simpl in Hflag, Hpend, Hcalls.
  destruct e as [p ok|p job|p info|b]; [| | |done];
    unfold step in Hstep; simpl in Hstep;
    (destruct (take_out p pend) as [rest|] eqn:Hrest; [|done]);
    destruct (take_out_Forall _ _ _ _ Hrest Hpend) as [Hp Hrest'];
    destruct p as [call chain]; simpl in Hstep, Hp, He;
    [|by destruct call, chain..].
  revert Hstep. destruct call, chain; try done; simpl.
  - unfold native_stat, stat_then, stat_catch.
    destruct (files !! filePath) as [[]|]; exec; rewrite ?Hflag; simpl;
      intros [= <-]; split; simpl; rewrite ?app_nil_r; done.
  - unfold native_exists, exists_then.
    destruct (bool_decide _); exec; intros [= <-];
      split; simpl; rewrite ?app_nil_r; try done;
      (apply Forall_app; split; [done|]; by apply Forall_singleton).
  - unfold native_unlink, unlink_catch.
    destruct (ok && _); exec; intros [= <-];
      split; simpl; rewrite ?app_nil_r; done.
Qed.

Lemma mount_offline D p files isConnected :
  offline (mount D p files isConnected).
Proof.
  unfold mount, componentWillMount, _processSource, checkImageCache.
  destruct p as [src policy]. exec.
  destruct (not_null src && not_empty_string src && typeof_object src
            && hasOwnProperty_uri src);
    exec; split; simpl; repeat constructor.
Qed.

(** Only the two connectivity callbacks set the flag. *)
Lemma step_flag e w w' :
  step e w = Some w' ->
  networkAvailable (state (component w)) = false ->
  networkAvailable (state (component w')) = true ->
  e = ConnectivityChange true
  \/ exists ok, e = Settle (NetInfo_fetch, FetchChain) ok
                /\ connected w = true.
Proof.
  intros Hstep Hoff Hon.
  destruct w as [[pr st] files conn lis pend cs]. simpl in Hoff.
  revert Hstep.
  destruct e as [[call chain] ok|p job|p info|b]; unfold step; simpl.
  - destruct (take_out (call, chain) pend) as [rest|]; [|done]. simpl.
    destruct call, chain; simpl; try done;
      unfold native_stat, native_mkdir, native_download, native_exists,
        native_unlink, stat_then, stat_catch, mkdir_then, mkdir_catch,
        download_then, download_catch, exists_then, unlink_catch,
        fetch_then, this_call, _deleteFilePath;
      exec; repeat case_match; simplify_eq/=; try done;
      intros [= <-]; simpl in Hon; repeat case_match; simplify_eq/=;
      try congruence.
    right. by exists ok.
  - destruct (take_out p pend); [|done]. simpl.
    destruct (download_target p); [|done]. simpl.
    intros [= <-]. simpl in Hon. congruence.
  - destruct (take_out p pend); [|done]. simpl.
    destruct (download_target p); [|done]. simpl.
    unfold imageDownloadProgress. exec.
    destruct (equals_one _); exec; intros [= <-]; simpl in Hon;
      congruence.
  - intros [= <-]. left. destruct lis; simpl in Hon; congruence.
Qed.

Lemma receiveProps_offline D nextProps w :
  offline w -> offline (receiveProps D nextProps w).
Proof.
  intros [Hflag Hpend Hcalls].
  destruct w as [[[src policy] st] files conn lis pend cs].
  simpl in Hflag, Hpend, Hcalls.
  unfold receiveProps, componentWillReceiveProps, _processSource,
    checkImageCache.
  exec. destruct (source_neq _ _); exec; [|by split; simpl; rewrite ?app_nil_r].
  destruct (not_null _ && not_empty_string _ && typeof_object _
            && hasOwnProperty_uri _);
    exec; split; simpl; rewrite ?app_nil_r; try done;
    (apply Forall_app; split; [done|]; by apply Forall_singleton).
Qed.

Lemma unmount_offline w : offline w -> offline (unmount w).
Proof.
  intros [Hflag Hpend Hcalls].
  destruct w as [[pr st] files conn lis pend cs].
  simpl in Hflag, Hpend, Hcalls. unfold unmount, componentWillUnmount.
  exec. destruct (downloading st && truthy_job (jobId st)); exec;
    split; simpl; rewrite ?app_nil_r; try done;
    (apply Forall_app; split; [done|]; by repeat constructor).
Qed.

Lemma receiveProps_flag D nextProps w :
  networkAvailable (state (component (receiveProps D nextProps w)))
  = networkAvailable (state (component w)).
Proof.
  destruct w as [[[src policy] st] files conn lis pend cs].
  unfold receiveProps, componentWillReceiveProps, _processSource,
    checkImageCache.
  exec. destruct (source_neq _ _); exec; [|done].
  by destruct (not_null _ && not_empty_string _ && typeof_object _
               && hasOwnProperty_uri _).
Qed.

Lemma unmount_flag w :
  networkAvailable (state (component (unmount w)))
  = networkAvailable (state (component w)).
Proof.
  destruct w as [[pr st] files conn lis pend cs].
  unfold unmount, componentWillUnmount. exec.
  by destruct (downloading st && truthy_job (jobId st)).
Qed.

Lemma act_offline D a w w' :
  connectivity_action a = false -> offline w -> act D a w = Some w' ->
  offline w'.
Proof.
  destruct a as [e|nextProps|]; simpl.
  - apply step_offline.
  - intros _ Hw [= <-]. by apply receiveProps_offline.
  - intros _ Hw [= <-]. by apply unmount_offline.
Qed.

Lemma play_offline D acts : forall w w',
  Forall (fun a => connectivity_action a = false) acts ->
  offline w -> play D acts w = Some w' -> offline w'.
Proof.
  induction acts as [|a acts IH]; intros w w' Hacts Hw Hplay.
  - by injection Hplay as <-.
  - apply Forall_cons in Hacts as [Ha Hacts]. simpl in Hplay.
    destruct (act D a w) as [w1|] eqn:Hact; [|done]. simpl in Hplay.
    eapply IH; [done| |done]. by eapply act_offline.
Qed.

Lemma act_flag D a w w' :
  act D a w = Some w' ->
  networkAvailable (state (component w)) = false ->
  networkAvailable (state (component w')) = true ->
  a = Deliver (ConnectivityChange true)
  \/ exists ok, a = Deliver (Settle (NetInfo_fetch, FetchChain) ok)
                /\ connected w = true.
Proof.
  destruct a as [e|nextProps|]; simpl.
  - intros Hstep Hoff Hon.
    destruct (step_flag e w w' Hstep Hoff Hon) as [->|(ok & -> & ?)];
      [by left|right; by exists ok].
  - intros [= <-]. rewrite receiveProps_flag. congruence.
  - intros [= <-]. rewrite unmount_flag. congruence.
Qed.

End NetworkFlag.

(** C10. The constructor sets the network flag to false, and mounting
    leaves it so; whatever happens to the component, the flag turns on only
    when the connectivity fetch settles on a connected device or when a
    connectivity change to "connected" is delivered.  Hence, after mounting,
    as long as no connectivity callback has run (whatever else has happened,
    new props included, and whatever the actual connectivity), the flag is
    off, no directory was created and no download started; a lookup that
    fails then sets the state to Unavailable without any native call. *)
Theorem C10_flag_starts_off (D : string) (p : Props)
    (files : gmap string Node) (isConnected : bool) (acts : list Action)
    (w : World) :
  play D acts (mount D p files isConnected) = Some w ->
  Forall (fun a => connectivity_action a = false) acts ->
  networkAvailable (state (constructor p)) = false
  /\ networkAvailable (state (component (mount D p files isConnected))) = false
  /\ (forall a w1 w2,
        act D a w1 = Some w2 ->
        networkAvailable (state (component w1)) = false ->
        networkAvailable (state (component w2)) = true ->
        a = Deliver (ConnectivityChange true)
        \/ exists ok, a = Deliver (Settle (NetInfo_fetch, FetchChain) ok)
                      /\ connected w1 = true)
  /\ networkAvailable (state (component w)) = false
  /\ Forall (fun c => quiet_call c = true) (calls w)
  /\ (forall imageUri dirPath filePath ok,
        (RNFS_stat filePath, StatChain imageUri dirPath filePath) ∈ pending w ->
        fs w !! filePath = None ->
        exists w',
          step (Settle (RNFS_stat filePath,
                        StatChain imageUri dirPath filePath) ok) w = Some w'
          /\ is_Unavailable (state (component w'))
          /\ calls w' = calls w).
Proof.
  intros Hplay Hacts.
  pose proof (mount_offline D p files isConnected) as Hmount.
  pose proof (play_offline D acts _ _ Hacts Hmount Hplay)
    as [Hflag Hpend Hcalls].
  split; [done|]. split; [by destruct Hmount|].
  split; [apply act_flag|]. split; [done|]. split; [done|].
  intros imageUri dirPath filePath ok Hp Hfs.
  destruct (take_out_elem _ _ Hp) as [rest Hrest].
  exists (after_stat imageUri dirPath filePath w rest).
  split; [by apply step_stat|]. unfold after_stat. by rewrite Hfs, Hflag.
Qed.

Lemma C10_flag_starts_off_witness :
  let acts := [Deliver (Settle (Scenario.stat Scenario.uriA) true);
               ReceiveProps Scenario.propsB] in
  exists w w',
    play Scenario.D acts (mount Scenario.D Scenario.propsA ∅ true) = Some w
    /\ connected w = true
    /\ step (Settle (Scenario.stat Scenario.uriB) true) w = Some w'
    /\ is_Unavailable (state (component w'))
    /\ calls w' = calls w.
Proof.
  intros acts.
  destruct (play Scenario.D acts (mount Scenario.D Scenario.propsA ∅ true))
    as [w|] eqn:Hplay; [|by vm_compute in Hplay].
  destruct (C10_flag_starts_off Scenario.D Scenario.propsA ∅ true acts w Hplay)
    as (_ & _ & _ & _ & _ & Hmiss); [by repeat constructor|].
  vm_compute in Hplay. injection Hplay as <-.
  edestruct (Hmiss Scenario.uriB Scenario.dir (Scenario.file Scenario.uriB) true)
    as (w' & Hstep & Hstate & Hcalls).
  - apply elem_of_cons. right. apply list_elem_of_singleton. by vm_compute.
  - by vm_compute.
  - eexists _, w'. split; [reflexivity|]. split; [reflexivity|].
    split; [exact Hstep|]. split; [exact Hstate | exact Hcalls].
Defined.

(** * Further properties of the component *)

(** ** Key derivation *)

Lemma all_chars_mem p c s :
  Str.all_chars p s = true -> p c = false -> Str.mem c s = false.
Proof.
  intros Hs Hc. induction s as [|d s IH]; [done|]. simpl in Hs.
  apply andb_prop in Hs as [Hd Hs]. cbn [Str.mem].
  destruct (Ascii.eqb_spec c d) as [->|_]; [congruence|by apply IH].
Qed.



(** X2. A key tells the digest and the extension apart: two keys are equal
    exactly when the digests of the identity strings are equal and the
    extensions are equal.  Locators with different extensions never share a
    file. *)
Theorem cacheKey_inj (policy1 policy2 : QueryPolicy) (url1 url2 : Url) :
  cacheKey_of policy1 url1 = cacheKey_of policy2 url2
  <-> SHA1.SHA1 (cacheable_of policy1 url1)
      = SHA1.SHA1 (cacheable_of policy2 url2)
      /\ extension_of url1 = extension_of url2.
Proof.
  unfold cacheKey_of. split.
  - intros Heq. apply app_inj_length in Heq as [Hsha Hext];
      [|by rewrite !SHA1_length].
    split; [done|]. by apply (app_inv_head_s ".").
  - by intros [-> ->].
Qed.

(** X3. The digest holds no slash, so the key holds one exactly when the
    extension does: on a path whose last dot comes before a slash, as in
    /v1.2/photo, the key names a file in a directory below the one that
    [checkImageCache] creates. *)
Theorem cacheKey_slash (policy : QueryPolicy) (url : Url) (stem ext : string) :
  no_line_terminator (pathname url) = true ->
  pathname url = stem +:+ "." +:+ ext ->
  Str.mem "." ext = false ->
  Str.mem "/" (cacheKey_of policy url) = Str.mem "/" ext.
Proof.
  intros Hline Hpath Hext. unfold cacheKey_of. rewrite !mem_app.
  rewrite (all_chars_mem is_hex_digit "/" _ (SHA1_hex _) eq_refl).
  rewrite (extension_of_line _ Hline), Hpath, (after_last_dot_app _ _ Hext).
  reflexivity.
Qed.

Lemma cacheKey_slash_witness :
  Str.mem "/" (cacheKey_of (PolicyBool false)
                 (URL "https://cdn.example.com/v1.2/photo")) = true.
Proof.
  rewrite (cacheKey_slash (PolicyBool false)
             (URL "https://cdn.example.com/v1.2/photo") "/v1" "2/photo");
    reflexivity.
Defined.

(** ** Sources and props *)

(** The two branches of [_processSource], for the proofs that follow: the
    status call of a source with its own [uri], nothing otherwise, and
    [isRemote] the only field written. *)
Lemma _processSource_branches (D : string) (src : Source) (c : Component) :
  exists c',
    (_processSource D src c).1.1 = Normal tt
    /\ (_processSource D src c).1.2 = c'
    /\ props c' = props c
    /\ state c' = set_isRemote (hasOwnProperty_uri src) (state c)
    /\ (_processSource D src c).2
       = if hasOwnProperty_uri src
         then
           let url := URL (uri_of src) in
           let dirPath := D +:+ "/" +:+ host url in
           let filePath :=
             dirPath +:+ "/"
               +:+ cacheKey_of (useQueryParamsInCacheKey (props c)) url in
           [(RNFS_stat filePath, Some (StatChain (uri_of src) dirPath filePath))]
         else [].
Proof.
  unfold _processSource, checkImageCache.
  destruct src as [|n|ref [uri|]]; exec; try (eexists; by repeat split).
  destruct (negb (n =? 0)); exec; eexists; by repeat split.
Qed.

(** What [componentWillReceiveProps] does to the world, case by case. *)
Lemma receiveProps_frame (D : string) (nextProps : Props) (w : World) :
  let w' := receiveProps D nextProps w in
  props (component w') = nextProps
  /\ fs w' = fs w /\ connected w' = connected w /\ listening w' = listening w.
Proof.
  destruct w as [[old st] files conn lis pend cs]. simpl.
  unfold receiveProps, componentWillReceiveProps. exec.
  destruct (source_neq (source nextProps) (source old)) eqn:Hneq; exec;
    [|done].
  destruct (_processSource_branches D (source nextProps) (mkComponent old st))
    as (c' & _ & Hc & _ & _ & Hout).
  destruct (_processSource D (source nextProps) (mkComponent old st))
    as [[r c''] out]. simpl in *. subst c' out.
  by destruct (hasOwnProperty_uri (source nextProps)).
Qed.

Lemma receiveProps_same (D : string) (nextProps : Props) (w : World) :
  let w' := receiveProps D nextProps w in
  source_neq (source nextProps) (source (props (component w))) = false ->
  state (component w') = state (component w)
  /\ calls w' = calls w /\ pending w' = pending w.
Proof.
  destruct w as [[old st] files conn lis pend cs]. simpl.
  unfold receiveProps, componentWillReceiveProps. exec.
  intros ->. exec. by rewrite !app_nil_r.
Qed.




(** ** Unmounting and connectivity *)

Lemma listens_removed l out :
  fold_left listens (out ++ [(NetInfo_removeEventListener, None)]) l = false.
Proof. by rewrite fold_left_app. Qed.

(** X6. Unmounting removes the connectivity listener and asks the native
    side to stop a download exactly when the downloading flag is set and
    the remembered job is truthy.  After the start of job [job] has been
    observed that means: one stop call for [job], unless [job] is 0; after a
    progress observation that cleared the flag, no stop call.  Pending
    promises are left as they are. *)
Theorem unmount_stops_download (p : Promise) (job : Z) (w w1 : World) :
  step (Begin p job) w = Some w1 ->
  calls (unmount w1)
  = calls w ++ NetInfo_removeEventListener
        :: (if job =? 0 then [] else [RNFS_stopDownload job])
  /\ pending (unmount w1) = pending w
  /\ fs (unmount w1) = fs w
  /\ (forall info w2,
        step (Progress p info) w1 = Some w2 ->
        bytesWritten info = contentLength info -> bytesWritten info <> 0 ->
        calls (unmount w2) = calls w ++ [NetInfo_removeEventListener]).
Proof.
  destruct w as [[pr st] files conn lis pend cs]. unfold step. simpl.
  destruct (take_out p pend) as [rest|] eqn:Hrest; [|done]. simpl.
  destruct (download_target p) as [toFile|] eqn:Htarget; [|done]. simpl.
  intros [= <-].
  unfold unmount, componentWillUnmount, imageDownloadBegin. exec.
  split; [|split; [|split]].
  - destruct (job =? 0); exec; by rewrite <- ?app_assoc, ?app_nil_r.
  - destruct (job =? 0); exec; by rewrite ?app_nil_r.
  - destruct (job =? 0); by exec.
  - intros info w2. rewrite ?app_nil_r, Hrest. simpl.
    unfold imageDownloadProgress, divide, equals_one.
    intros Hstep Heq Hnz. revert Hstep.
    apply Z.eqb_neq in Hnz as ->. rewrite Heq, Z.eqb_refl. exec.
    intros [= <-]. exec. by rewrite ?app_nil_r.
Qed.

Lemma unmount_stops_download_witness :
  let p := download_request "https://cdn.example.com/img/photo.JPG"
                            "/docs/cdn.example.com/k.JPG" in
  let w := mkWorld (constructor Scenario.propsA) ∅ true true [p] [fst p] in
  exists w1,
    step (Begin p 3) w = Some w1
    /\ calls (unmount w1)
       = [fst p; NetInfo_removeEventListener; RNFS_stopDownload 3].
Proof.
  intros p w. eexists. split; [reflexivity|].
  match goal with
  | |- calls (unmount ?w1) = _ =>
      destruct (unmount_stops_download p 3 w w1 eq_refl) as (-> & _)
  end.
  reflexivity.
Defined.

(** X7. A connectivity change is recorded and nothing else happens: with
    the listener in place the flag takes the reported value, and no call is
    made, no promise added, no file touched, and the cache and download
    fields keep their values, so a resolution that ended Unavailable is not
    tried again; reporting the same value twice is the same as reporting it
    once.  Once the component is unmounted the change does not reach it. *)
Theorem connectivity_change_only_sets_flag (isConnected : bool) (w : World) :
  exists w',
    step (ConnectivityChange isConnected) w = Some w'
    /\ connected w' = isConnected
    /\ networkAvailable (state (component w'))
       = (if listening w then isConnected
          else networkAvailable (state (component w)))
    /\ set_networkAvailable (networkAvailable (state (component w)))
         (state (component w'))
       = state (component w)
    /\ props (component w') = props (component w)
    /\ calls w' = calls w /\ pending w' = pending w /\ fs w' = fs w
    /\ listening w' = listening w
    /\ step (ConnectivityChange isConnected) w' = Some w'
    /\ exists w'',
        step (ConnectivityChange isConnected) (unmount w) = Some w''
        /\ component w'' = component (unmount w).
Proof.
  destruct w as [[pr [r path d c j n]] files conn lis pend cs].
  eexists. split; [reflexivity|]. simpl.
  destruct lis; exec; rewrite ?app_nil_r; repeat split;
    unfold unmount, componentWillUnmount; exec;
    destruct (d && truthy_job j); exec; eexists; split; reflexivity.
Qed.

(** ** From a miss to a hit *)

Lemma take_out_other (p q : Promise) (l rest : list Promise) :
  take_out p l = Some rest -> q ∈ l -> q <> p -> q ∈ rest.
Proof.
  revert rest. induction l as [|r l IH]; intros rest; [done|]. simpl.
  destruct (decide (p = r)) as [->|Hpr].
  - intros [= <-] [->|Hq]%elem_of_cons Hne; done.
  - destruct (take_out p l) as [rest'|]; [|done]. simpl.
    intros [= <-] [->|Hq]%elem_of_cons Hne; apply elem_of_cons; eauto.
Qed.

Lemma run_cons e es w w1 :
  step e w = Some w1 -> run (e :: es) w = run es w1.
Proof. intros Hstep. simpl. by rewrite Hstep. Qed.

(** X8. A lookup that misses with the network available and no earlier
    entry recorded runs to the end when the directory creation and the
    transfer succeed: the directory exists, the file is at the derived
    path, the state is Cached with that path, and the calls made are the
    directory creation (excluded from backup) and one background download
    from the image's URI.  The same lookup made again is a hit and
    downloads nothing. *)
Theorem miss_then_download_then_hit (D imageUri cachePath cacheKey : string)
    (w : World) (ok : bool) :
  let dirPath := D +:+ "/" +:+ cachePath in
  let filePath := dirPath +:+ "/" +:+ cacheKey in
  let lookup := (RNFS_stat filePath, StatChain imageUri dirPath filePath) in
  lookup ∈ pending w ->
  fs w !! filePath = None ->
  networkAvailable (state (component w)) = true ->
  cacheable (state (component w))
    && truthy_path (cachedImagePath (state (component w))) = false ->
  exists w3,
    run [Settle lookup ok;
         Settle (RNFS_mkdir dirPath true, MkdirChain imageUri dirPath filePath)
                true;
         Settle (download_request imageUri filePath) true] w = Some w3
    /\ is_Cached (state (component w3)) filePath
    /\ fs w3 !! filePath = Some File
    /\ is_Some (fs w3 !! dirPath)
    /\ calls w3
       = calls w ++ [RNFS_mkdir dirPath true;
                     RNFS_downloadFile imageUri filePath true]
    /\ forall ok', exists w5,
        step (Settle lookup ok')
             (run_handler (checkImageCache D imageUri cachePath cacheKey) w3)
        = Some w5
        /\ is_Cached (state (component w5)) filePath
        /\ calls w5 = calls w3 ++ [RNFS_stat filePath].
Proof.
  intros dirPath filePath lookup Hp Hfs Hnet Hentry.
  destruct (take_out_elem _ _ Hp) as [rest Hrest].
  pose proof (step_stat imageUri dirPath filePath w ok rest Hrest) as H1.
  unfold after_stat in H1. rewrite Hfs, Hnet in H1.
  set (w1 := mkWorld (component w) (fs w) (connected w) (listening w)
               (rest ++ [(RNFS_mkdir dirPath true,
                          MkdirChain imageUri dirPath filePath)])
               (calls w ++ [RNFS_mkdir dirPath true])) in H1.
  assert ((RNFS_mkdir dirPath true, MkdirChain imageUri dirPath filePath)
            ∈ pending w1) as Hmk
    by (apply elem_of_app; right; by apply list_elem_of_singleton).
  destruct (take_out_elem _ _ Hmk) as [rest1 Hrest1].
  pose proof (step_mkdir_fulfilled w1 rest1 dirPath true imageUri dirPath
                filePath Hrest1) as H2.
  cbn [component w1] in H2. rewrite Hentry in H2.
  set (files1 := match fs w1 !! dirPath with
                 | Some _ => fs w1
                 | None => <[dirPath := Directory]> (fs w1)
                 end) in H2.
  set (w2 := world_with w1 rest1 (component w) files1
               [download_request imageUri filePath]) in H2.
  assert (download_request imageUri filePath ∈ pending w2) as Hdl
    by (apply elem_of_app; right; by apply list_elem_of_singleton).
  destruct (take_out_elem _ _ Hdl) as [rest2 Hrest2].
  pose proof (step_download_fulfilled w2 rest2 imageUri filePath true filePath
                Hrest2) as H3.
  eexists. split.
  { rewrite (run_cons _ _ _ _ H1), (run_cons _ _ _ _ H2), (run_cons _ _ _ _ H3).
    reflexivity. }
  assert (is_Some (files1 !! dirPath)) as Hdir.
  { unfold files1. destruct (fs w1 !! dirPath) eqn:Hd; [by rewrite Hd|].
    rewrite lookup_insert_eq. by eexists. }
  split; [done|]. split; [apply lookup_insert_eq|]. split.
  { cbn [fs world_with w2]. rewrite lookup_insert.
    case_decide; [by eexists | done]. }
  split.
  { cbn [calls world_with w2 w1 map fst download_request].
    by rewrite app_nil_r, <- app_assoc. }
  intros ok'.
  match goal with
  | |- context [run_handler _ ?x] =>
      set (w4 := run_handler (checkImageCache D imageUri cachePath cacheKey) x)
  end.
  assert (lookup ∈ pending w4) as Hagain.
  { unfold w4, checkImageCache. exec. apply elem_of_app. right.
    apply list_elem_of_singleton. unfold lookup, filePath, dirPath.
    by rewrite !app_assoc_s. }
  destruct (take_out_elem _ _ Hagain) as [rest4 Hrest4].
  pose proof (step_stat imageUri dirPath filePath w4 ok' rest4 Hrest4) as H5.
  unfold after_stat in H5.
  assert (fs w4 !! filePath = Some File) as Hfile
    by (unfold w4, checkImageCache; exec; apply lookup_insert_eq).
  rewrite Hfile in H5. eexists. split; [exact H5|]. split; [done|].
  unfold w4, checkImageCache. exec. unfold filePath, dirPath.
  by rewrite !app_assoc_s.
Qed.

Lemma miss_then_download_then_hit_witness :
  let filePath := "/docs/cdn.example.com/k.JPG" in
  let lookup := (RNFS_stat filePath,
                 StatChain "https://cdn.example.com/img/photo.JPG"
                           "/docs/cdn.example.com" filePath) in
  let w := mkWorld (mkComponent Scenario.propsA
                      (mkState true None false true None true))
                   ∅ true true [lookup] [RNFS_stat filePath] in
  exists w3,
    run [Settle lookup true;
         Settle (RNFS_mkdir "/docs/cdn.example.com" true,
                 MkdirChain "https://cdn.example.com/img/photo.JPG"
                            "/docs/cdn.example.com" filePath) true;
         Settle (download_request "https://cdn.example.com/img/photo.JPG"
                                  filePath) true] w = Some w3
    /\ is_Cached (state (component w3)) filePath
    /\ fs w3 !! filePath = Some File.
Proof.
  intros filePath lookup w.
  destruct (miss_then_download_then_hit "/docs"
              "https://cdn.example.com/img/photo.JPG" "cdn.example.com"
              "k.JPG" w true) as (w3 & Hrun & Hstate & Hfile & _).
  - apply list_elem_of_singleton. reflexivity.
  - reflexivity.
  - reflexivity.
  - reflexivity.
  - exists w3. split; [exact Hrun|]. split; [exact Hstate | exact Hfile].
Defined.

(** ** Directory creation and transfers *)

(** X9. When the directory creation settles, the file system is changed by
    a success only, and only if nothing was at the path.  A failure
    requests the deletion of the destination and sets the state to
    Unavailable; no download starts.  A success starts one background
    download from the image's URI to the destination when no cached path is
    recorded, and leaves the state alone; when one is recorded no download
    starts and the state becomes Unavailable. *)
Theorem mkdir_settles (imageUri dirPath filePath : string) (created : bool)
    (w : World) :
  (RNFS_mkdir dirPath true, MkdirChain imageUri dirPath filePath) ∈ pending w ->
  exists w',
    step (Settle (RNFS_mkdir dirPath true,
                  MkdirChain imageUri dirPath filePath) created) w = Some w'
    /\ fs w' = (if created && bool_decide (fs w !! dirPath = None)
                then <[dirPath := Directory]> (fs w) else fs w)
    /\ (created = false
        \/ cacheable (state (component w))
             && truthy_path (cachedImagePath (state (component w))) = true ->
        is_Unavailable (state (component w'))
        /\ calls w' = calls w ++ [RNFS_exists filePath]
        /\ forall q, q ∈ pending w' ->
             q ∈ pending w \/ q = delete_request filePath)
    /\ (created = true ->
        cacheable (state (component w))
          && truthy_path (cachedImagePath (state (component w))) = false ->
        component w' = component w
        /\ calls w' = calls w ++ [RNFS_downloadFile imageUri filePath true]
        /\ download_request imageUri filePath ∈ pending w').
Proof.
  intros Hp. destruct (take_out_elem _ _ Hp) as [rest Hrest].
  pose proof (take_out_sub _ _ _ Hrest) as Hsub.
  destruct created.
  - eexists. split; [by apply step_mkdir_fulfilled|]. simpl. split.
    { destruct (cacheable _ && _); cbn [fs world_with];
        destruct (fs w !! dirPath) eqn:Hd; rewrite ?Hd;
        first [by rewrite bool_decide_eq_false_2
              | by rewrite bool_decide_eq_true_2]. }
    split.
    + intros [?|Hentry]; [done|]. rewrite Hentry. simpl.
      split; [done|]. split; [done|].
      intros q [Hq| ->%list_elem_of_singleton]%elem_of_app; auto.
    + intros _ Hentry. rewrite Hentry. simpl.
      split; [done|]. split; [done|].
      apply elem_of_app. right. by apply list_elem_of_singleton.
  - eexists. split; [by apply step_mkdir_rejected|]. simpl.
    split; [done|]. split; [|done]. intros _.
    split; [done|]. split; [done|].
    intros q [Hq| ->%list_elem_of_singleton]%elem_of_app; auto.
Qed.

Lemma mkdir_settles_witness :
  let filePath := "/docs/cdn.example.com/k.JPG" in
  let dirPath := "/docs/cdn.example.com" in
  let p := (RNFS_mkdir dirPath true,
            MkdirChain "https://cdn.example.com/img/photo.JPG" dirPath
                       filePath) in
  let w := mkWorld (mkComponent Scenario.propsA
                      (mkState true None false true None true))
                   ∅ true true [p] [fst p] in
  exists w',
    step (Settle p true) w = Some w'
    /\ calls w'
       = [fst p;
          RNFS_downloadFile "https://cdn.example.com/img/photo.JPG" filePath
                            true]
    /\ fs w' !! dirPath = Some Directory.
Proof.
  intros filePath dirPath p w.
  destruct (mkdir_settles "https://cdn.example.com/img/photo.JPG" dirPath
              filePath true w) as (w' & Hstep & Hfs & _ & Hstart).
  { apply list_elem_of_singleton. reflexivity. }
  destruct (Hstart eq_refl eq_refl) as (_ & Hcalls & _).
  exists w'. split; [exact Hstep|]. split; [exact Hcalls|].
  rewrite Hfs. reflexivity.
Defined.

(** X10. Two downloads under way at once are not told apart when they
    finish: each success sets the state to Cached with its own destination,
    so the state ends with the path of the one that finished last, whatever
    the order in which they were started; both files are on disk. *)
Theorem last_download_wins (uri1 file1 uri2 file2 : string) (w : World) :
  download_request uri1 file1 ∈ pending w ->
  download_request uri2 file2 ∈ pending w ->
  download_request uri1 file1 <> download_request uri2 file2 ->
  exists w',
    run [Settle (download_request uri1 file1) true;
         Settle (download_request uri2 file2) true] w = Some w'
    /\ is_Cached (state (component w')) file2
    /\ fs w' !! file1 = Some File
    /\ fs w' !! file2 = Some File
    /\ calls w' = calls w.
Proof.
  intros H1 H2 Hne. destruct (take_out_elem _ _ H1) as [rest1 Hrest1].
  pose proof (step_download_fulfilled w rest1 uri1 file1 true file1 Hrest1)
    as Hstep1.
  match type of Hstep1 with _ = Some ?x => set (w1 := x) in Hstep1 end.
  assert (download_request uri2 file2 ∈ pending w1) as H2'.
  { cbn [pending world_with w1]. rewrite app_nil_r.
    by apply (take_out_other _ _ _ _ Hrest1). }
  destruct (take_out_elem _ _ H2') as [rest2 Hrest2].
  pose proof (step_download_fulfilled w1 rest2 uri2 file2 true file2 Hrest2)
    as Hstep2.
  eexists. split.
  { rewrite (run_cons _ _ _ _ Hstep1), (run_cons _ _ _ _ Hstep2).
    reflexivity. }
  split; [done|]. cbn [fs world_with w1]. split; [|split].
  - rewrite lookup_insert. case_decide; [done|apply lookup_insert_eq].
  - apply lookup_insert_eq.
  - cbn [calls world_with w1 map]. by rewrite !app_nil_r.
Qed.

Lemma last_download_wins_witness :
  let pA := download_request "https://cdn.example.com/a.png" "/docs/h/a.png" in
  let pB := download_request "https://cdn.example.com/b.png" "/docs/h/b.png" in
  let w := mkWorld (constructor Scenario.propsA) ∅ true true [pA; pB]
                   [fst pA; fst pB] in
  exists w',
    run [Settle pB true; Settle pA true] w = Some w'
    /\ is_Cached (state (component w')) "/docs/h/a.png".
Proof.
  intros pA pB w.
  destruct (last_download_wins "https://cdn.example.com/b.png" "/docs/h/b.png"
              "https://cdn.example.com/a.png" "/docs/h/a.png" w)
    as (w' & Hrun & Hstate & _).
  - apply elem_of_cons. right. apply list_elem_of_singleton. reflexivity.
  - apply elem_of_cons. by left.
  - discriminate.
  - exists w'. split; [exact Hrun | exact Hstate].
Defined.

(** ** What is displayed *)

(** X11. For a remote source the image is only ever displayed from the
    local file.  Once the lookup has settled on a regular file the element
    shows file:// followed by the derived path; when it has settled on a
    miss with the network flag off, the element is the default source if
    there is one and the activity indicator otherwise: an image that is
    unavailable is displayed like one that is still loading.  The source
    prop itself is never handed to the image. *)
Theorem render_after_lookup (imageUri dirPath filePath : string)
    (defaultSource : option Source) (w : World) (ok : bool) :
  (RNFS_stat filePath, StatChain imageUri dirPath filePath) ∈ pending w ->
  isRemote (state (component w)) = true ->
  String.eqb filePath EmptyString = false ->
  exists w',
    step (Settle (RNFS_stat filePath, StatChain imageUri dirPath filePath) ok) w
    = Some w'
    /\ (fs w !! filePath = Some File ->
        render defaultSource (component w')
        = ResponsiveImageUri ("file://" +:+ filePath))
    /\ (fs w !! filePath = None ->
        networkAvailable (state (component w)) = false ->
        render defaultSource (component w')
        = if truthy_source defaultSource
          then CacheableImageElement (default SrcNull defaultSource)
          else ActivityIndicator)
    /\ (forall src, render defaultSource (component w') <> ResponsiveImage src).
Proof.
  intros Hp Hremote Hpath. destruct (take_out_elem _ _ Hp) as [rest Hrest].
  eexists. split; [by apply step_stat|]. unfold after_stat, render.
  destruct (fs w !! filePath) as [[]|]; simpl.
  - rewrite Hremote. simpl. rewrite Hpath. simpl. repeat split; done.
  - rewrite Hremote. simpl. repeat split; try done.
    intros src. by repeat case_match.
  - destruct (networkAvailable _); simpl; rewrite Hremote; simpl.
    + repeat split; try done. intros src. by repeat case_match.
    + repeat split; try done. intros src. by repeat case_match.
Qed.

Lemma render_after_lookup_witness :
  let filePath := "/docs/cdn.example.com/k.JPG" in
  let p := (RNFS_stat filePath,
            StatChain "https://cdn.example.com/img/photo.JPG"
                      "/docs/cdn.example.com" filePath) in
  let w := mkWorld (mkComponent Scenario.propsA
                      (mkState true None false true None false))
                   {[ filePath := File ]} true true [p] [fst p] in
  exists w',
    step (Settle p true) w = Some w'
    /\ render None (component w')
       = ResponsiveImageUri "file:///docs/cdn.example.com/k.JPG".
Proof.
  intros filePath p w.
  destruct (render_after_lookup "https://cdn.example.com/img/photo.JPG"
              "/docs/cdn.example.com" filePath None w true)
    as (w' & Hstep & Hhit & _).
  - apply list_elem_of_singleton. reflexivity.
  - reflexivity.
  - reflexivity.
  - exists w'. split; [exact Hstep|]. apply Hhit. reflexivity.
Defined.



(** ** The order of the native calls *)

Section Traced.

Variable D : string.

Lemma under_file dirPath cacheKey :
  under D dirPath -> under D (dirPath +:+ "/" +:+ cacheKey).
Proof.
  intros [rest ->]. exists (rest +:+ "/" +:+ cacheKey).
  by rewrite !app_assoc_s.
Qed.

Lemma promise_ok_mono log more q :
  promise_ok D log q -> promise_ok D (log ++ more) q.
Proof.
  destruct q as [[] []]; simpl; try done;
    intros H; repeat (destruct H as [? H]);
    repeat split; try done; apply elem_of_app; by left.
Qed.

Lemma pending_ok_mono log more ps :
  Forall (promise_ok D log) ps -> Forall (promise_ok D (log ++ more)) ps.
Proof.
  intros Hps. eapply Forall_impl; [exact Hps|]. intros q.
  apply promise_ok_mono.
Qed.

Lemma log_ok_split l : log_ok D l ->
  forall l1 c l2, l = l1 ++ c :: l2 -> justified D l1 c.
Proof.
  induction 1 as [|l c0 Hl IH Hc0]; intros l1 c l2 Heq.
  - by destruct l1.
  - destruct l2 as [|x l2 _] using rev_ind.
    + apply app_inj_tail in Heq as [-> ->]. done.
    + rewrite app_comm_cons, app_assoc in Heq.
      apply app_inj_tail in Heq as [-> _]. by eapply IH.
Qed.

Lemma log_ok_elem l c :
  log_ok D l -> c ∈ l -> exists l1, justified D l1 c /\ forall c', c' ∈ l1 -> c' ∈ l.
Proof.
  intros Hl (l1 & l2 & ->)%list_elem_of_split. exists l1. split.
  - by eapply log_ok_split.
  - intros c' Hc'. apply elem_of_app. by left.
Qed.

(** A world after a handler that issued the calls [new]. *)
Lemma traced_after (w : World) c' files conn lis rest new :
  Forall (promise_ok D (calls w)) rest ->
  log_ok D (calls w) ->
  Forall (promise_ok D (calls w ++ map fst new)) new ->
  log_ok D (calls w ++ map fst new) ->
  (downloading (state c') = true ->
   exists fromUrl toFile,
     RNFS_downloadFile fromUrl toFile true ∈ calls w ++ map fst new) ->
  traced D (mkWorld c' files conn lis (rest ++ new) (calls w ++ map fst new)).
Proof.
  intros Hrest Hlog Hnew Hlog' Hdl. split; simpl; [|done|done].
  apply Forall_app. split; [by apply pending_ok_mono|done].
Qed.

(** The download started earlier is still in a longer log. *)
Ltac keep_download H :=
  let Hd := fresh in
  intros Hd; destruct (H Hd) as (? & ? & ?);
  eexists _, _; apply elem_of_app; left; eassumption.

Lemma step_traced e w w' : traced D w -> step e w = Some w' -> traced D w'.
Proof.
  intros [Hpend Hlog Hdl] Hstep.
  destruct w as [[pr st] files conn lis pend cs].
  simpl in Hpend, Hlog, Hdl.
  destruct e as [p ok|p job|p info|b]; unfold step in Hstep; simpl in Hstep.
  - destruct (take_out p pend) as [rest|] eqn:Hrest; [|done].
    destruct (take_out_Forall _ _ _ _ Hrest Hpend) as [Hp Hrest'].
    destruct p as [call chain]. simpl in Hstep. revert Hstep.
    destruct call, chain; try done; simpl in Hp |- *.
    + (* stat *)
      destruct Hp as (-> & Hdir & [cacheKey Hfile] & Hstat).
      unfold native_stat, stat_then, stat_catch.
      destruct (files !! filePath0) as [[]|]; exec;
        [| |destruct (networkAvailable st); exec]; intros [= <-];
        try (split; simpl; rewrite ?app_nil_r; done).
      apply (traced_after
               (mkWorld (mkComponent pr st) files conn lis pend cs)
               _ _ _ _ rest
               [(RNFS_mkdir dirPath true,
                 MkdirChain imageUri dirPath filePath0)]); simpl; try done; try keep_download Hdl.
      * apply Forall_singleton. simpl. repeat split; try done.
        -- by exists cacheKey.
        -- apply elem_of_app. by left.
        -- apply elem_of_app. right. by apply list_elem_of_singleton.
      * apply log_ok_snoc; [done|]. split.
        -- by intros path [= <-].
        -- split; [done|]. exists cacheKey. by rewrite <- Hfile.
    + (* mkdir *)
      destruct Hp as (-> & -> & Hdir & [cacheKey Hfile] & Hstat & Hmk).
      assert (under D filePath) as Hunder
        by (rewrite Hfile; by apply under_file).
      unfold native_mkdir, mkdir_then, mkdir_catch, this_call,
        _deleteFilePath.
      destruct ok; exec;
        [destruct (cacheable st && truthy_path (cachedImagePath st)); exec|];
        intros [= <-].
      * apply (traced_after
                 (mkWorld (mkComponent pr st) files conn lis pend cs)
                 _ _ _ _ rest [delete_request filePath]); simpl; try done; try keep_download Hdl.
        -- apply Forall_singleton. simpl. repeat split; try done.
           apply elem_of_app. right. by apply list_elem_of_singleton.
        -- apply log_ok_snoc; [done|]. split; [by intros path [= <-]|done].
      * apply (traced_after
                 (mkWorld (mkComponent pr st) files conn lis pend cs)
                 _ _ _ _ rest [download_request imageUri filePath]);
          simpl; try done; try keep_download Hdl.
        -- apply Forall_singleton. simpl. repeat split; try done.
           ++ apply elem_of_app. by left.
           ++ apply elem_of_app. right. by apply list_elem_of_singleton.
        -- apply log_ok_snoc; [done|]. split; [by intros path [= <-]|].
           split; [done|]. split; [done|]. by exists dirPath0, cacheKey.
      * apply (traced_after
                 (mkWorld (mkComponent pr st) files conn lis pend cs)
                 _ _ _ _ rest [delete_request filePath]); simpl; try done; try keep_download Hdl.
        -- apply Forall_singleton. simpl. repeat split; try done.
           apply elem_of_app. right. by apply list_elem_of_singleton.
        -- apply log_ok_snoc; [done|]. split; [by intros path [= <-]|done].
    + (* download *)
      destruct Hp as (-> & -> & Hunder & Hstat & Hcall).
      unfold native_download, download_then, download_catch, _deleteFilePath.
      destruct ok; exec; intros [= <-].
      * split; simpl; rewrite ?app_nil_r; done.
      * apply (traced_after
                 (mkWorld (mkComponent pr st) files conn lis pend cs)
                 _ _ _ _ rest [delete_request filePath]); simpl; try done; try keep_download Hdl.
        -- apply Forall_singleton. simpl. repeat split; try done.
           apply elem_of_app. right. by apply list_elem_of_singleton.
        -- apply log_ok_snoc; [done|]. split; [by intros path [= <-]|done].
    + (* exists *)
      destruct Hp as (-> & Hunder & Hcall).
      unfold native_exists, exists_then.
      destruct (bool_decide _); exec; intros [= <-];
        [|split; simpl; rewrite ?app_nil_r; done].
      apply (traced_after
               (mkWorld (mkComponent pr st) files conn lis pend cs)
               _ _ _ _ rest [unlink_request filePath0]); simpl; try done; try keep_download Hdl.
      * by apply Forall_singleton.
      * apply log_ok_snoc; [done|]. split; [by intros path [= <-]|done].
    + (* unlink *)
      unfold native_unlink, unlink_catch.
      destruct (ok && _); exec; intros [= <-];
        split; simpl; rewrite ?app_nil_r; done.
    + (* fetch *)
      unfold fetch_then. exec. intros [= <-].
      split; simpl; rewrite ?app_nil_r; done.
  - destruct (take_out p pend) as [rest|] eqn:Hrest; [|done].
    destruct (take_out_Forall _ _ _ _ Hrest Hpend) as [Hp _].
    simpl in Hstep. destruct p as [[] []]; try done. simpl in Hstep, Hp.
    revert Hstep. unfold imageDownloadBegin. exec. intros [= <-].
    destruct Hp as (-> & -> & _ & _ & Hcall).
    split; simpl; rewrite ?app_nil_r; try done.
    intros _. by exists fromUrl, filePath.
  - destruct (take_out p pend) as [rest|] eqn:Hrest; [|done].
    simpl in Hstep. destruct (download_target p); [|done].
    simpl in Hstep. revert Hstep. unfold imageDownloadProgress.
    destruct (equals_one _); exec; intros [= <-];
      split; simpl; rewrite ?app_nil_r; done.
  - injection Hstep as <-. destruct lis; exec;
      split; simpl; rewrite ?app_nil_r; done.
Qed.

Lemma lookup_traced (src : Source) (w : World) :
  traced D w -> traced D (run_handler (_processSource D src) w).
Proof.
  intros [Hpend Hlog Hdl].
  destruct w as [[pr st] files conn lis pend cs].
  simpl in Hpend, Hlog, Hdl. unfold _processSource, checkImageCache.
  destruct (not_null src && not_empty_string src && typeof_object src
            && hasOwnProperty_uri src); exec;
    [|split; simpl; rewrite ?app_nil_r; done].
  set (dirPath := D +:+ "/" +:+ host (URL (uri_of src))).
  set (cacheKey := cacheKey_of (useQueryParamsInCacheKey pr) (URL (uri_of src))).
  assert (under D dirPath) as Hdir by (by eexists).
  apply (traced_after (mkWorld (mkComponent pr st) files conn lis pend cs)
           _ _ _ _ pend
           [(RNFS_stat (dirPath +:+ "/" +:+ cacheKey),
             StatChain (uri_of src) dirPath (dirPath +:+ "/" +:+ cacheKey))]);
    simpl; try done; try keep_download Hdl.
  - apply Forall_singleton. simpl. repeat split; try done.
    + by exists cacheKey.
    + apply elem_of_app. right. by apply list_elem_of_singleton.
  - apply log_ok_snoc; [done|]. split; [|done].
    intros path [= <-]. by apply under_file.
Qed.

Lemma mount_traced p files isConnected :
  traced D (mount D p files isConnected).
Proof.
  set (w0 := mkWorld (constructor p) files isConnected true
               [(NetInfo_fetch, FetchChain)]
               [NetInfo_addEventListener; NetInfo_fetch]).
  assert (mount D p files isConnected
          = run_handler (_processSource D (source p)) w0) as ->.
  { unfold mount, componentWillMount, _processSource, checkImageCache.
    destruct p as [src policy]. exec.
    by destruct (not_null src && not_empty_string src && typeof_object src
                 && hasOwnProperty_uri src). }
  apply lookup_traced. split; simpl.
  - by apply Forall_singleton.
  - apply (log_ok_snoc D [NetInfo_addEventListener]); [|done].
    by apply (log_ok_snoc D []); [constructor|].
  - done.
Qed.

Lemma receiveProps_traced nextProps w :
  traced D w -> traced D (receiveProps D nextProps w).
Proof.
  intros Hw. unfold receiveProps.
  assert (traced D (run_handler (componentWillReceiveProps D nextProps) w))
    as [Hpend Hlog Hdl]; [|by split].
  destruct w as [[pr st] files conn lis pend cs].
  destruct (source_neq (source nextProps) (source pr)) eqn:Hneq.
  - assert (run_handler (componentWillReceiveProps D nextProps)
              (mkWorld (mkComponent pr st) files conn lis pend cs)
            = run_handler (_processSource D (source nextProps))
                (mkWorld (mkComponent pr st) files conn lis pend cs)) as ->.
    { unfold componentWillReceiveProps. exec. rewrite Hneq.
      by destruct (_processSource D (source nextProps) (mkComponent pr st))
        as [[r c] out]. }
    by apply lookup_traced.
  - destruct Hw as [Hpend Hlog Hdl]. unfold componentWillReceiveProps.
    exec. rewrite Hneq. exec. split; simpl in *; by rewrite ?app_nil_r.
Qed.

Lemma unmount_traced w : traced D w -> traced D (unmount w).
Proof.
  intros [Hpend Hlog Hdl]. destruct w as [[pr st] files conn lis pend cs].
  simpl in Hpend, Hlog, Hdl. unfold unmount, componentWillUnmount. exec.
  assert (log_ok D (cs ++ [NetInfo_removeEventListener])) as Hlog'
    by (by apply log_ok_snoc).
  destruct (downloading st) eqn:Hd; simpl;
    [destruct (truthy_job (jobId st))|]; exec; rewrite ?app_nil_r.
  - split; simpl.
    + by apply pending_ok_mono.
    + change (cs ++ [NetInfo_removeEventListener;
                     RNFS_stopDownload (default 0 (jobId st))])
        with (cs ++ [NetInfo_removeEventListener]
                 ++ [RNFS_stopDownload (default 0 (jobId st))]).
      rewrite app_assoc. apply log_ok_snoc; [done|]. split; [done|].
      destruct (Hdl eq_refl) as (u & f & Hin). exists u, f.
      apply elem_of_app. by left.
    + intros _. destruct (Hdl eq_refl) as (u & f & Hin). exists u, f.
      apply elem_of_app. by left.
  - split; simpl; [by apply pending_ok_mono|done|].
    intros _. destruct (Hdl eq_refl) as (u & f & Hin). exists u, f.
    apply elem_of_app. by left.
  - split; simpl; [by apply pending_ok_mono|done|congruence].
Qed.

Lemma play_traced acts : forall w w',
  traced D w -> play D acts w = Some w' -> traced D w'.
Proof.
  induction acts as [|a acts IH]; intros w w' Hw Hplay.
  - by injection Hplay as <-.
  - simpl in Hplay. destruct (act D a w) as [w1|] eqn:Hact; [|done].
    simpl in Hplay. apply (IH w1); [|done].
    destruct a as [e|nextProps|]; simpl in Hact.
    + by apply (step_traced e w).
    + injection Hact as <-. by apply receiveProps_traced.
    + injection Hact as <-. by apply unmount_traced.
Qed.

End Traced.

(** X13. Whatever happens to a mounted component, every path it hands to
    the file system lies below the documents directory, and every
    directory it creates is excluded from backup. *)
Theorem paths_under_documents (D : string) (p : Props)
    (files : gmap string Node) (isConnected : bool) (acts : list Action)
    (w : World) :
  play D acts (mount D p files isConnected) = Some w ->
  (forall c path, c ∈ calls w -> call_path c = Some path -> under D path)
  /\ (forall dirPath flag, RNFS_mkdir dirPath flag ∈ calls w -> flag = true).
Proof.
  intros Hplay.
  pose proof (play_traced D acts _ _ (mount_traced D p files isConnected) Hplay)
    as [_ Hlog _].
  split.
  - intros c path Hc Hpath.
    destruct (log_ok_elem D _ _ Hlog Hc) as (l1 & [Hunder _] & _). auto.
  - intros dirPath flag Hc.
    by destruct (log_ok_elem D _ _ Hlog Hc) as (l1 & [_ [? _]] & _).
Qed.

(** X14. Whatever happens to a mounted component, a download is only
    started, in the background, to a path whose status was asked before
    and whose directory was asked to be created before; and a download is
    only asked to stop after one was started. *)
Theorem download_after_lookup (D : string) (p : Props)
    (files : gmap string Node) (isConnected : bool) (acts : list Action)
    (w : World) :
  play D acts (mount D p files isConnected) = Some w ->
  (forall before fromUrl toFile background after,
      calls w = before ++ RNFS_downloadFile fromUrl toFile background :: after ->
      background = true
      /\ RNFS_stat toFile ∈ before
      /\ exists dirPath cacheKey,
          toFile = dirPath +:+ "/" +:+ cacheKey
          /\ RNFS_mkdir dirPath true ∈ before)
  /\ (forall before job after,
        calls w = before ++ RNFS_stopDownload job :: after ->
        exists fromUrl toFile, RNFS_downloadFile fromUrl toFile true ∈ before).
Proof.
  intros Hplay.
  pose proof (play_traced D acts _ _ (mount_traced D p files isConnected) Hplay)
    as [_ Hlog _].
  split.
  - intros before fromUrl toFile background after Hcalls.
    by destruct (log_ok_split D _ Hlog _ _ _ Hcalls) as [_ ?].
  - intros before job after Hcalls.
    by destruct (log_ok_split D _ Hlog _ _ _ Hcalls) as [_ ?].
Qed.

(** X15. Whatever happens to a mounted component, a file is only removed
    after its existence was checked, and its existence is only checked
    after its status was asked: the component deletes nothing but paths it
    has derived and looked up itself. *)
Theorem unlink_after_exists (D : string) (p : Props)
    (files : gmap string Node) (isConnected : bool) (acts : list Action)
    (w : World) :
  play D acts (mount D p files isConnected) = Some w ->
  (forall before filePath after,
      calls w = before ++ RNFS_unlink filePath :: after ->
      RNFS_exists filePath ∈ before)
  /\ (forall before filePath after,
        calls w = before ++ RNFS_exists filePath :: after ->
        RNFS_stat filePath ∈ before).
Proof.
  intros Hplay.
  pose proof (play_traced D acts _ _ (mount_traced D p files isConnected) Hplay)
    as [_ Hlog _].
  split; intros before filePath after Hcalls;
    by destruct (log_ok_split D _ Hlog _ _ _ Hcalls) as [_ ?].
Qed.

Lemma paths_under_documents_witness :
  let acts := Deliver <$> Scenario.first_load in
  exists w,
    play Scenario.D acts (mount Scenario.D Scenario.propsA ∅ true) = Some w
    /\ RNFS_mkdir Scenario.dir true ∈ calls w
    /\ under Scenario.D Scenario.dir.
Proof.
  intros acts.
  destruct (play Scenario.D acts (mount Scenario.D Scenario.propsA ∅ true))
    as [w|] eqn:Hplay; [|by vm_compute in Hplay].
  destruct (paths_under_documents Scenario.D Scenario.propsA ∅ true acts w
              Hplay) as [Hpaths _].
  vm_compute in Hplay. injection Hplay as <-.
  eexists. split; [reflexivity|].
  match goal with
  | |- ?c ∈ calls ?w' /\ _ =>
      assert (c ∈ calls w') as Hin
        by (apply list_elem_of_In; vm_compute; tauto)
  end.
  split; [exact Hin|]. by apply (Hpaths _ _ Hin).
Defined.

Lemma download_after_lookup_witness :
  let acts := Deliver <$> Scenario.first_load in
  exists w before after,
    play Scenario.D acts (mount Scenario.D Scenario.propsA ∅ true) = Some w
    /\ calls w
       = before ++ RNFS_downloadFile Scenario.uriA
                     (Scenario.file Scenario.uriA) true :: after
    /\ RNFS_stat (Scenario.file Scenario.uriA) ∈ before.
Proof.
  intros acts.
  destruct (play Scenario.D acts (mount Scenario.D Scenario.propsA ∅ true))
    as [w|] eqn:Hplay; [|by vm_compute in Hplay].
  destruct (download_after_lookup Scenario.D Scenario.propsA ∅ true acts w
              Hplay) as [Hdl _].
  vm_compute in Hplay. injection Hplay as <-.
  eexists _, [NetInfo_addEventListener; NetInfo_fetch;
              RNFS_stat (Scenario.file Scenario.uriA);
              RNFS_mkdir Scenario.dir true], [].
  split; [reflexivity|].
  match goal with
  | |- ?l = ?r /\ _ => assert (l = r) as Hcalls by (by vm_compute)
  end.
  split; [exact Hcalls|]. by destruct (Hdl _ _ _ _ _ Hcalls) as (_ & ? & _).
Defined.

Lemma unlink_after_exists_witness :
  let dl := Scenario.download Scenario.uriA in
  let acts :=
    Deliver <$> [Settle Scenario.fetch true;
                 Settle (Scenario.stat Scenario.uriA) true;
                 Settle (Scenario.mkdir Scenario.uriA) true;
                 Progress dl (mkProgress 2048 512);
                 Settle dl false;
                 Settle (delete_request (Scenario.file Scenario.uriA)) true;
                 Settle (unlink_request (Scenario.file Scenario.uriA)) true] in
  exists w before,
    play Scenario.D acts (mount Scenario.D Scenario.propsA ∅ true) = Some w
    /\ calls w = before ++ [RNFS_unlink (Scenario.file Scenario.uriA)]
    /\ RNFS_exists (Scenario.file Scenario.uriA) ∈ before
    /\ fs w !! Scenario.file Scenario.uriA = None.
Proof.
  intros dl acts.
  destruct (play Scenario.D acts (mount Scenario.D Scenario.propsA ∅ true))
    as [w|] eqn:Hplay; [|by vm_compute in Hplay].
  destruct (unlink_after_exists Scenario.D Scenario.propsA ∅ true acts w
              Hplay) as [Hun _].
  vm_compute in Hplay. injection Hplay as <-.
  eexists _, [NetInfo_addEventListener; NetInfo_fetch;
              RNFS_stat (Scenario.file Scenario.uriA);
              RNFS_mkdir Scenario.dir true;
              RNFS_downloadFile Scenario.uriA (Scenario.file Scenario.uriA)
                                true;
              RNFS_exists (Scenario.file Scenario.uriA)].
  split; [reflexivity|].
  match goal with
  | |- ?l = ?r /\ _ => assert (l = r) as Hcalls by (by vm_compute)
  end.
  split; [exact Hcalls|]. split; [by apply (Hun _ _ _ Hcalls)|].
  by vm_compute.
Defined.

(** ** Local sources *)

Record local_world (files : gmap string Node) (w : World) : Prop := mkLocal {
  local_pending : Forall (fun q => q = (NetInfo_fetch, FetchChain)) (pending w);
  local_calls : Forall (fun c => listener_call c = true) (calls w);
  local_state : isRemote (state (component w)) = false
                /\ downloading (state (component w)) = false;
  local_files : fs w = files
}.

Lemma step_local files e w w' :
  local_world files w -> step e w = Some w' -> local_world files w'.
Proof.
  intros [Hpend Hcalls [Hremote Hdl] Hfs] Hstep.
  destruct w as [[pr st] fs0 conn lis pend cs]. simpl in *.
  destruct e as [p ok|p job|p info|b]; unfold step in Hstep; simpl in Hstep.
  - destruct (take_out p pend) as [rest|] eqn:Hrest; [|done].
    destruct (take_out_Forall _ _ _ _ Hrest Hpend) as [-> Hrest'].
    simpl in Hstep. revert Hstep. unfold fetch_then. exec. intros [= <-].
    split; simpl; rewrite ?app_nil_r; done.
  - destruct (take_out p pend) as [rest|] eqn:Hrest; [|done].
    by destruct (take_out_Forall _ _ _ _ Hrest Hpend) as [-> _].
  - destruct (take_out p pend) as [rest|] eqn:Hrest; [|done].
    by destruct (take_out_Forall _ _ _ _ Hrest Hpend) as [-> _].
  - injection Hstep as <-. destruct lis; exec;
      split; simpl; rewrite ?app_nil_r; done.
Qed.

Lemma act_local D files a w w' :
  local_action a = true -> local_world files w -> act D a w = Some w' ->
  local_world files w'.
Proof.
  destruct a as [e|nextProps|]; simpl.
  - intros _. apply step_local.
  - intros Hlocal%negb_true_iff [Hpend Hcalls [Hremote Hdl] Hfs] [= <-].
    destruct (receiveProps_frame D nextProps w) as (_ & Hfs' & _ & _).
    pose proof (receiveProps_same D nextProps w) as Hsame.
    destruct (source_neq (source nextProps) (source (props (component w))))
      eqn:Hneq.
    + destruct w as [[pr st] fs0 conn lis pend cs]. simpl in *.
      unfold receiveProps, componentWillReceiveProps, _processSource.
      exec. rewrite Hneq, Hlocal, !andb_false_r. exec.
      split; simpl; rewrite ?app_nil_r; done.
    + destruct (Hsame eq_refl) as (Hst & Hcs & Hps).
      split; rewrite ?Hst, ?Hcs, ?Hps, ?Hfs'; done.
  - intros _ [Hpend Hcalls [Hremote Hdl] Hfs] [= <-].
    destruct w as [[pr st] fs0 conn lis pend cs]. simpl in *.
    unfold unmount, componentWillUnmount. exec. rewrite Hdl. exec.
    split; simpl; rewrite ?app_nil_r; try done.
    apply Forall_app. split; [done|]. by apply Forall_singleton.
Qed.

(** X16. A component mounted on a local source ([null], a bundled asset,
    an object without [uri]) and kept on local sources never touches the
    file system: its only native calls are the registration and removal of
    the connectivity listener and the connectivity fetch, the files are
    left as they were, and it renders the image from the [source] prop as
    it is. *)
Theorem local_source_no_file_access (D : string) (p : Props)
    (files : gmap string Node) (isConnected : bool) (acts : list Action)
    (w : World) :
  hasOwnProperty_uri (source p) = false ->
  Forall (fun a => local_action a = true) acts ->
  play D acts (mount D p files isConnected) = Some w ->
  Forall (fun c => listener_call c = true) (calls w)
  /\ fs w = files
  /\ forall defaultSource,
      render defaultSource (component w)
      = ResponsiveImage (source (props (component w))).
Proof.
  intros Hlocal Hacts Hplay.
  assert (local_world files (mount D p files isConnected)) as Hmount.
  { unfold mount, componentWillMount, _processSource. destruct p as [src pol].
    simpl in Hlocal. exec. rewrite Hlocal, !andb_false_r. exec.
    split; simpl; repeat constructor. }
  assert (local_world files w) as [_ Hcalls [Hremote _] Hfs].
  { revert Hplay Hmount. generalize (mount D p files isConnected).
    induction Hacts as [|a acts Ha _ IH]; intros w0 Hplay Hw0.
    - by injection Hplay as <-.
    - simpl in Hplay. destruct (act D a w0) as [w1|] eqn:Hact; [|done].
      apply (IH w1); [done|]. by apply (act_local D files a w0). }
  split; [done|]. split; [done|]. intros defaultSource.
  unfold render. by rewrite Hremote.
Qed.

Lemma local_source_no_file_access_witness :
  let p := mkProps (SrcNumber 7) (PolicyBool true) in
  let acts := [Deliver (Settle (NetInfo_fetch, FetchChain) true);
               ReceiveProps (mkProps (SrcObject 1 None) (PolicyBool true));
               Unmount] in
  exists w,
    play Scenario.D acts (mount Scenario.D p ∅ true) = Some w
    /\ calls w
       = [NetInfo_addEventListener; NetInfo_fetch; NetInfo_removeEventListener]
    /\ render None (component w) = ResponsiveImage (SrcObject 1 None).
Proof.
  intros p acts. eexists. split; [reflexivity|].
  match goal with
  | |- calls ?w = _ /\ _ =>
      destruct (local_source_no_file_access Scenario.D p ∅ true acts w)
        as (_ & _ & Hrender); [reflexivity|by repeat constructor|reflexivity|]
  end.
  split; [reflexivity|]. apply Hrender.
Defined.

(** ** When nothing is pending *)

Lemma step_idle e w w' :
  pending w = [] -> step e w = Some w' ->
  (exists isConnected, e = ConnectivityChange isConnected)
  /\ pending w' = [] /\ calls w' = calls w /\ fs w' = fs w
  /\ cacheable (state (component w')) = cacheable (state (component w))
  /\ cachedImagePath (state (component w'))
     = cachedImagePath (state (component w)).
Proof.
  intros Hidle. destruct w as [[pr st] files conn lis pend cs].
  simpl in Hidle. subst pend. destruct e as [p ok|p job|p info|b]; try done.
  simpl. intros [= <-]. split; [by eexists|].
  destruct lis; exec; by rewrite ?app_nil_r.
Qed.

(** X17. Once a resolution has come to its end, with no promise pending,
    the environment alone cannot start another one: the only events the
    component still reacts to are connectivity changes, and through any
    number of them it makes no call, starts no promise, touches no file
    and keeps its cache fields.  An image that ended Unavailable stays so
    until new props arrive, also after the network has come back. *)
Theorem no_retry_without_new_props (es : list Event) (w w' : World) :
  pending w = [] ->
  run es w = Some w' ->
  Forall (fun e => exists isConnected, e = ConnectivityChange isConnected) es
  /\ pending w' = [] /\ calls w' = calls w /\ fs w' = fs w
  /\ cacheable (state (component w')) = cacheable (state (component w))
  /\ cachedImagePath (state (component w'))
     = cachedImagePath (state (component w)).
Proof.
  revert w. induction es as [|e es IH]; intros w Hidle Hrun.
  - injection Hrun as <-. by repeat split.
  - simpl in Hrun. destruct (step e w) as [w1|] eqn:Hstep; [|done].
    simpl in Hrun.
    destruct (step_idle e w w1 Hidle Hstep)
      as (He & Hidle1 & Hcalls & Hfs & Hc & Hpath).
    destruct (IH w1 Hidle1 Hrun) as (Hes & ? & Hcalls' & Hfs' & Hc' & Hpath').
    split; [by apply Forall_cons|].
    rewrite Hcalls', Hfs', Hc', Hpath'. by repeat split.
Qed.

Lemma no_retry_without_new_props_witness :
  let w := mkWorld (mkComponent Scenario.propsA
                      (mkState true None false false None false))
                   ∅ false true [] [RNFS_stat "/docs/cdn.example.com/k.JPG"] in
  exists w',
    run [ConnectivityChange true; ConnectivityChange true] w = Some w'
    /\ networkAvailable (state (component w')) = true
    /\ is_Unavailable (state (component w'))
    /\ calls w' = calls w.
Proof.
  intros w. eexists. split; [reflexivity|]. split; [reflexivity|].
  match goal with
  | |- is_Unavailable (state (component ?w')) /\ _ =>
      destruct (no_retry_without_new_props
                  [ConnectivityChange true; ConnectivityChange true] w w'
                  eq_refl eq_refl) as (_ & _ & Hcalls & _ & Hc & Hpath)
  end.
  split; [split; [rewrite Hc | rewrite Hpath]; reflexivity | exact Hcalls].
Defined.
